(** * CRITs lookup integration (integration.js)

    A shallow embedding of the lookup adapter: option validation, URI
    construction, error classification, the per-type lookups, the tag
    builders, and the [doLookup] dispatcher.

    What lies outside integration.js is modelled as follows.
    - Values are JSON-shaped ([JsVal]); a string is its sequence of
      characters as Rocq has them, a number is an integer.
    - A function that can throw returns an [Outcome]; an exception thrown
      in a callback is caught by nobody and ends the process.
    - The HTTP client ([request]) is the environment: it answers each
      request, at some later time, with a [Reply] (error, response, parsed
      body).  The replies of a run are a list of [Event]s in their order of
      arrival, and [step] runs the callback of the request answered.
    - [async.each] starts its iteratee for every element at once, calls its
      final callback with the first error an iteratee reports or with null
      once all have succeeded, and never calls it twice; [async.parallel]
      does the same for its tasks and collects their results by key.
    - Logging ([Logger.trace], [Logger.debug]) is left out. *)

From Stdlib Require Import ZArith Ascii String DecimalString.
From stdpp Require Import base list strings.

Set Warnings "-register-all".

(** ** JavaScript values

    JSON-shaped values as the integration sees them.  Numbers are the
    integer-valued ones that a double holds exactly and prints in full
    (below 2^53 in magnitude); an object is the list of its properties,
    each name once, in the order they were created in. *)

Inductive JsVal : Type :=
| JUndefined
| JNull
| JBool (b : bool)
| JNum (n : Z)
| JStr (s : string)
| JArr (elems : list JsVal)
| JObj (props : list (string * JsVal)).

(** A JavaScript computation either returns or throws (a TypeError, here,
    uncaught in every function of the integration). *)
Inductive Outcome (A : Type) : Type :=
| Ret (a : A)
| Throw (msg : string).
Arguments Ret {A} a.
Arguments Throw {A} msg.

#[global] Instance Outcome_ret : MRet Outcome := fun A a => Ret a.
#[global] Instance Outcome_bind : MBind Outcome := fun A B f m =>
  match m with
  | Ret a => f a
  | Throw msg => Throw msg
  end.

Module Js.

(** The double quote character, for markup and JSON text. *)
Definition dq : string := String (ascii_of_nat 34) EmptyString.

Definition truthy (v : JsVal) : bool :=
  match v with
  | JUndefined | JNull => false
  | JBool b => b
  | JNum n => negb (n =? 0)%Z
  | JStr s => negb (String.eqb s "")
  | JArr _ | JObj _ => true
  end.

Definition nullish (v : JsVal) : bool :=
  match v with
  | JUndefined | JNull => true
  | _ => false
  end.

(** [typeof v === 'string'] and [typeof v === 'object']. *)
Definition is_string (v : JsVal) : bool :=
  match v with
  | JStr _ => true
  | _ => false
  end.

Definition typeof_object (v : JsVal) : bool :=
  match v with
  | JNull | JArr _ | JObj _ => true
  | _ => false
  end.

(** Own-property lookup in a property list. *)
Fixpoint assoc (k : string) (props : list (string * JsVal)) : JsVal :=
  match props with
  | [] => JUndefined
  | (k', v) :: rest => if String.eqb k k' then v else assoc k rest
  end.

(** Property read [v.k] for a named (non-index, non-length) property.
    Reading a property of undefined or null throws. *)
Definition get (v : JsVal) (k : string) : Outcome JsVal :=
  match v with
  | JUndefined => Throw "TypeError: Cannot read properties of undefined"
  | JNull => Throw "TypeError: Cannot read properties of null"
  | JObj props => Ret (assoc k props)
  | _ => Ret JUndefined
  end.

Definition string_of_Z (n : Z) : string :=
  NilZero.string_of_int (Z.to_int n).

Definition string_of_nat (n : nat) : string :=
  NilZero.string_of_uint (Nat.to_uint n).

(** ToString, as string concatenation with [+] applies it: an array prints
    as its elements joined by commas, an object as [[object Object]].
    JavaScript refuses to convert an object that has a property of its own
    named [toString] (a TypeError); such an object is printed here like any
    other, so what is derived from this function holds of the values the
    remote API sends where text is expected (strings, numbers, plain
    objects). *)
Fixpoint to_string (v : JsVal) : string :=
  match v with
  | JUndefined => "undefined"
  | JNull => "null"
  | JBool true => "true"
  | JBool false => "false"
  | JNum n => string_of_Z n
  | JStr s => s
  | JArr elems =>
      (fix join (l : list JsVal) : string :=
         match l with
         | [] => ""
         | x :: rest =>
             (if nullish x then "" else to_string x) +:+
             match rest with
             | [] => ""
             | _ => "," +:+ join rest
             end
         end) elems
  | JObj _ => "[object Object]"
  end.

(** [v.length] of a value that is a string. *)
Definition string_length (v : JsVal) : nat :=
  match v with
  | JStr s => String.length s
  | _ => 0%nat
  end.

(** [s + v] for a string [s]. *)
Definition concat (s : string) (v : JsVal) : string := s +:+ to_string v.

(** ** String methods *)

(** [s.endsWith(suffix)]. *)
Definition endsWith (s suffix : string) : bool :=
  let n := String.length s in
  let m := String.length suffix in
  if (m <=? n)%nat then String.eqb (String.substring (n - m) m s) suffix
  else false.

(** [s.substring(a, b)] for [a <= b <= s.length]. *)
Definition substring (a b : nat) (s : string) : string :=
  String.substring a (b - a) s.

Definition lower_char (c : ascii) : ascii :=
  let n := nat_of_ascii c in
  if ((65 <=? n) && (n <=? 90))%nat then ascii_of_nat (n + 32) else c.

Definition upper_char (c : ascii) : ascii :=
  let n := nat_of_ascii c in
  if ((97 <=? n) && (n <=? 122))%nat then ascii_of_nat (n - 32) else c.

Fixpoint map_string (f : ascii -> ascii) (s : string) : string :=
  match s with
  | EmptyString => EmptyString
  | String c rest => String (f c) (map_string f rest)
  end.

(** Case mapping on the ASCII letters (hash types and hex digests). *)
Definition toLowerCase : string -> string := map_string lower_char.
Definition toUpperCase : string -> string := map_string upper_char.

(** ** JSON.stringify *)

Definition hex_digit (n : nat) : ascii :=
  if (n <? 10)%nat then ascii_of_nat (48 + n) else ascii_of_nat (87 + n).

Definition escape_char (c : ascii) : string :=
  let n := nat_of_ascii c in
  if (n =? 34)%nat then "\" +:+ dq
  else if (n =? 92)%nat then "\\"
  else if (n =? 8)%nat then "\b"
  else if (n =? 9)%nat then "\t"
  else if (n =? 10)%nat then "\n"
  else if (n =? 12)%nat then "\f"
  else if (n =? 13)%nat then "\r"
  else if (n <? 32)%nat then
    "\u00" +:+ String (hex_digit (n / 16)) (String (hex_digit (n mod 16)) "")
  else String c "".

Fixpoint escape (s : string) : string :=
  match s with
  | EmptyString => ""
  | String c rest => escape_char c +:+ escape rest
  end.

Definition quote (s : string) : string := dq +:+ escape s +:+ dq.

(** *** The order of the properties of an object

    JavaScript enumerates the properties of an object whose names are array
    indices first, in ascending order, and the others after them in the
    order they were created in.  An array index is the decimal numeral,
    with no sign and no leading zero, of an integer below 2^32 - 1. *)

Definition digit_value (c : ascii) : option N :=
  let n := N_of_ascii c in
  if ((48 <=? n) && (n <=? 57))%N then Some (n - 48)%N else None.

Fixpoint numeral_value (s : string) (acc : N) : option N :=
  match s with
  | EmptyString => Some acc
  | String c rest =>
      match digit_value c with
      | Some d => numeral_value rest (10 * acc + d)%N
      | None => None
      end
  end.

Definition array_index (k : string) : option N :=
  match k with
  | EmptyString => None
  | String c rest =>
      if Ascii.eqb c "0" && negb (String.eqb rest "") then None
      else
        match numeral_value k 0 with
        | Some n => if (n <? 4294967295)%N then Some n else None
        | None => None
        end
  end.

Fixpoint insert_indexed {A : Type} (n : N) (kx : string * A)
    (l : list (N * (string * A))) : list (N * (string * A)) :=
  match l with
  | [] => [(n, kx)]
  | (m, ky) :: rest =>
      if (n <? m)%N then (n, kx) :: l else (m, ky) :: insert_indexed n kx rest
  end.

Fixpoint indexed_properties {A : Type} (props : list (string * A))
  : list (N * (string * A)) :=
  match props with
  | [] => []
  | (k, x) :: rest =>
      match array_index k with
      | Some n => insert_indexed n (k, x) (indexed_properties rest)
      | None => indexed_properties rest
      end
  end.

Definition is_named {A : Type} (kx : string * A) : bool :=
  match array_index (fst kx) with
  | Some _ => false
  | None => true
  end.

(** The properties in the order they are enumerated in. *)
Definition own_properties {A : Type} (props : list (string * A))
  : list (string * A) :=
  List.map snd (indexed_properties props) ++ List.filter is_named props.

(** The members of a serialized object: a property whose value has no
    serialization is left out. *)
Fixpoint members (l : list (string * option string)) (first : bool)
  : string :=
  match l with
  | [] => ""
  | (k, None) :: rest => members rest first
  | (k, Some t) :: rest =>
      (if first then "" else ",") +:+ quote k +:+ ":" +:+ t +:+
      members rest false
  end.

(** Serialization of a value inside an array or object: [None] where
    JSON.stringify yields undefined (the property is then left out, the
    array slot is written null). *)
Fixpoint stringify_opt (v : JsVal) : option string :=
  match v with
  | JUndefined => None
  | JNull => Some "null"
  | JBool true => Some "true"
  | JBool false => Some "false"
  | JNum n => Some (string_of_Z n)
  | JStr s => Some (quote s)
  | JArr elems =>
      Some ("[" +:+
        (fix items (l : list JsVal) : string :=
           match l with
           | [] => ""
           | x :: rest =>
               default "null" (stringify_opt x) +:+
               match rest with
               | [] => ""
               | _ => "," +:+ items rest
               end
           end) elems +:+ "]")
  | JObj props =>
      Some ("{" +:+
        members
          (own_properties
             ((fix each (l : list (string * JsVal))
                 : list (string * option string) :=
                 match l with
                 | [] => []
                 | (k, x) :: rest => (k, stringify_opt x) :: each rest
                 end) props))
          true +:+ "}")
  end.

(** ** Arrays, loops and Sets *)

(** [arr[i]]: undefined past the end. *)
Definition index (arr : list JsVal) (i : nat) : JsVal :=
  default JUndefined (arr !! i).

(** [arr.forEach(f)] with the state the callback updates threaded
    through; a throw in the callback ends the loop. *)
Fixpoint forEach {A St : Type} (f : St -> A -> Outcome St) (arr : list A)
    (s : St) : Outcome St :=
  match arr with
  | [] => Ret s
  | x :: rest => s' ← f s x; forEach f rest s'
  end.

(** [for (var i = start; cond(i); i++) body(i)].  [fuel] bounds the number
    of iterations; every loop of the integration is bounded by the length
    of the array it walks, which is the fuel it is given. *)
Fixpoint for_loop {St : Type} (fuel : nat) (cond : nat -> bool)
    (body : St -> nat -> Outcome St) (i : nat) (s : St) : Outcome St :=
  match fuel with
  | O => Ret s
  | S fuel' =>
      if cond i then s' ← body s i; for_loop fuel' cond body (S i) s'
      else Ret s
  end.

(** SameValueZero, the equality of Set membership.  Two objects (or
    arrays) are the same only when they are one object; the values
    compared here are distinct parsed values, never one object twice. *)
Definition sameValueZero (a b : JsVal) : bool :=
  match a, b with
  | JUndefined, JUndefined => true
  | JNull, JNull => true
  | JBool x, JBool y => Bool.eqb x y
  | JNum x, JNum y => (x =? y)%Z
  | JStr x, JStr y => String.eqb x y
  | _, _ => false
  end.

(** A Set as the list of its members in insertion order, which is the
    order [Set.prototype.forEach] visits them in. *)
Definition Set_has (s : list JsVal) (v : JsVal) : bool :=
  existsb (sameValueZero v) s.

Definition Set_add (s : list JsVal) (v : JsVal) : list JsVal :=
  if Set_has s v then s else s ++ [v].

(** [JSON.stringify(v)] where the result is used as a string. *)
Definition JSON_stringify (v : JsVal) : string :=
  default "undefined" (stringify_opt v).

End Js.

(** ** Data model *)

(** An indicator as the host classifies it. *)
Record Entity : Type := {
  isIP : bool;
  isMD5 : bool;
  isSHA1 : bool;
  isSHA256 : bool;
  isDomain : bool;
  isURL : bool;
  hashType : string;
  value : string
}.

(** The user options.  The three connection parameters are whatever the
    host stored (their type is what validation checks); the three switches
    are read for their truth value only. *)
Record Options : Type := {
  hostname : JsVal;
  username : JsVal;
  apiKey : JsVal;
  lookupIps : bool;
  lookupHashes : bool;
  lookupDomains : bool
}.

(** The [data] of a lookup result that is not a miss. *)
Record ResultData : Type := {
  summary : list JsVal;
  details : JsVal
}.

(** A lookup result: [displayValue] is [None] where the property is not
    set, [data] is [None] where it is null (a miss). *)
Record LookupResult : Type := {
  entity : Entity;
  displayValue : option JsVal;
  data : option ResultData
}.

(** The HTTP response handed to a request callback: [None] is undefined. *)
Record Response : Type := { statusCode : Z }.

(** The parsed body of a reply.  The remote API answers
    [{ objects: [record, ...] }].  The cases are: no body, a body whose
    [objects] is undefined or null, and a body whose [objects] is an array
    of records.  A body whose [objects] is anything else (a string, a
    number, an object that is not an array) is not among them. *)
Inductive Body : Type :=
| NoBody                          (* undefined or null *)
| NoObjects                       (* a value whose [objects] reads undefined or null *)
| Objects (objs : list JsVal).    (* [objects] is this array *)

(** What the HTTP client passes to the callback of one request. *)
Record Reply : Type := {
  reply_err : JsVal;
  reply_response : option Response;
  reply_body : Body
}.

(** ** Option validation *)

Definition _validateOptions (options : Options) : option string :=
  if negb (Js.is_string (hostname options)) then Some "No hostname set"
  else if (Js.string_length (hostname options) =? 0)%nat then
    Some "Hostname must be at least 1 character"
  else if negb (Js.is_string (apiKey options)) then Some "No API key set"
  else if (Js.string_length (apiKey options) =? 0)%nat then
    Some "API key must be at least 1 character"
  else if negb (Js.is_string (username options)) then Some "No username set"
  else if (Js.string_length (username options) =? 0)%nat then
    Some "Username must be at least 1 character"
  else None.

(** ** URI construction *)

(** Removes the trailing slash if the user added one. *)
Definition _getFormattedHostname (options : Options) : Outcome string :=
  match hostname options with
  | JStr hostname =>
      if Js.endsWith hostname "/" then
        Ret (Js.substring 0 (String.length hostname - 1) hostname)
      else Ret hostname
  | JUndefined | JNull => Throw "TypeError: Cannot read properties of undefined"
  | _ => Throw "TypeError: hostname.endsWith is not a function"
  end.

Definition _getUriAuthQueryParam (options : Options) : string :=
  Js.concat (Js.concat "&username=" (username options) +:+ "&api_key=")
            (apiKey options).

Definition _getHashSampleUri (hashType value : string) (options : Options)
  : Outcome string :=
  host ← _getFormattedHostname options;
  Ret (host +:+
       "/api/v1/samples/?only=filename,campaign,description,modified,source&" +:+
       "c-" +:+ Js.toLowerCase hashType +:+ "=" +:+ Js.toLowerCase value +:+
       _getUriAuthQueryParam options).

Definition _getPatchDescriptionUri (type : string) (objectId : JsVal)
    (options : Options) : Outcome string :=
  host ← _getFormattedHostname options;
  Ret (Js.concat (host +:+ "/api/v1/" +:+ type +:+ "/") objectId +:+
       _getUriAuthQueryParam options).

Definition _getIpUri (value : string) (options : Options) : Outcome string :=
  host ← _getFormattedHostname options;
  Ret (host +:+ "/api/v1/ips/?c-ip=" +:+ value +:+ _getUriAuthQueryParam options).

Definition _getHashUri (hashType value : string) (options : Options)
  : Outcome string :=
  host ← _getFormattedHostname options;
  Ret (host +:+ "/api/v1/indicators/?c-type=" +:+ Js.toUpperCase hashType +:+
       "&c-lower=" +:+ Js.toLowerCase value +:+ _getUriAuthQueryParam options).

(** The four detail-page URLs share this shape:
    [hostname + '/<section>/details/' + object.<key> + '/']. *)
Definition details_url (section key : string) (options : Options)
    (object : JsVal) : Outcome string :=
  host ← _getFormattedHostname options;
  k ← Js.get object key;
  Ret (Js.concat (host +:+ "/" +:+ section +:+ "/details/") k +:+ "/").

Definition _getCritsHashUrl := details_url "indicators" "_id".
Definition _getCritsSampleUrl := details_url "samples" "md5".
Definition _getCritsIpUrl := details_url "ips" "ip".
Definition _getCritsDomainUrl := details_url "domains" "domain".

Definition _getCritsDomainUri (value : string) (options : Options)
  : Outcome string :=
  host ← _getFormattedHostname options;
  Ret (host +:+ "/api/v1/domains/?c-domain=" +:+ value +:+
       _getUriAuthQueryParam options).

(** ** Error classification *)

Definition msg_unauthorized : string :=
  "Unauthorized to access CRITs. Please check username and API key".
Definition msg_unknown : string :=
  "There was an unknown error accessing CRITs".

(** [response.statusCode]; the read throws when there is no response. *)
Definition response_status (response : option Response) : Outcome Z :=
  match response with
  | Some r => Ret (statusCode r)
  | None => Throw "TypeError: Cannot read properties of undefined"
  end.

(** Returns [None] for null. *)
Definition _getErrorMessage (err : JsVal) (response : option Response)
    (body : Body) : Outcome (option string) :=
  code ← (if Js.truthy err then Js.get err "code" else Ret JUndefined);
  if Js.truthy err && Js.is_string code then Ret (Some (Js.to_string code))
  else if Js.truthy err && Js.typeof_object err then
    Ret (Some (Js.JSON_stringify err))
  else
    status ← response_status response;
    if (status =? 401)%Z then Ret (Some msg_unauthorized)
    else if negb (status =? 200)%Z then Ret (Some msg_unknown)
    else Ret None.

(** ** Tag builders *)

Definition _createSourceMarker : string :=
  " <i class=" +:+ Js.dq +:+
  "bts bt-fw bt-map-marker integration-text-bold-color" +:+ Js.dq +:+ "></i>".

Definition _createCampaignMarkger : string :=
  " <i class=" +:+ Js.dq +:+
  "fa fa-fw fa-bullhorn integration-text-bold-color" +:+ Js.dq +:+ "></i>".

Definition sample_count_marker : string :=
  " <i class=" +:+ Js.dq +:+ "fa fa-bug integration-text-bold-color" +:+
  Js.dq +:+ "></i>".

(** [entry.name + marker]. *)
Definition name_tag (marker : string) (entry : JsVal) : Outcome JsVal :=
  name ← Js.get entry "name";
  Ret (JStr (Js.to_string name +:+ marker)).

(** The [details] of a hash payload. *)
Record HashDetails : Type := {
  hashSamples : list JsVal;
  hashIndicators : list JsVal
}.

Definition HashDetails_value (d : HashDetails) : JsVal :=
  JObj [("type", JStr "hash");
        ("hashSamples", JArr (hashSamples d));
        ("hashIndicators", JArr (hashIndicators d))].

(** The three Sets of [_createHashTags]. *)
Record TagSets : Type := {
  uniqueSources : list JsVal;
  uniqueCampaigns : list JsVal;
  uniqueBucketLists : list JsVal
}.

(** [if (Array.isArray(v)) v.forEach(f)]. *)
Definition forEach_if_array {St : Type} (f : St -> JsVal -> Outcome St)
    (v : JsVal) (s : St) : Outcome St :=
  match v with
  | JArr elems => Js.forEach f elems s
  | _ => Ret s
  end.

(** The callback of the two [forEach] loops over [details.hashSamples] and
    [details.hashIndicators]; both have this body. *)
Definition collect_tags (sets : TagSets) (item : JsVal) : Outcome TagSets :=
  source ← Js.get item "source";
  us ← forEach_if_array
          (fun us source =>
             t ← name_tag _createSourceMarker source; Ret (Js.Set_add us t))
          source (uniqueSources sets);
  campaign ← Js.get item "campaign";
  uc ← forEach_if_array
          (fun uc campaign =>
             t ← name_tag _createCampaignMarkger campaign;
             Ret (Js.Set_add uc t))
          campaign (uniqueCampaigns sets);
  bucket_list ← Js.get item "bucket_list";
  ub ← forEach_if_array (fun ub bucket => Ret (Js.Set_add ub bucket))
          bucket_list (uniqueBucketLists sets);
  Ret {| uniqueSources := us; uniqueCampaigns := uc; uniqueBucketLists := ub |}.

Definition _createHashTags (details : HashDetails) : Outcome (list JsVal) :=
  let n := length (hashSamples details) in
  let count_tag := JStr (Js.string_of_nat n +:+ sample_count_marker) in
  let tags :=
    if (n =? 1)%nat then [count_tag]
    else if (1 <? n)%nat then [count_tag]
    else [] in
  sets ← Js.forEach collect_tags (hashSamples details)
          {| uniqueSources := []; uniqueCampaigns := [];
             uniqueBucketLists := [] |};
  sets ← Js.forEach collect_tags (hashIndicators details) sets;
  Ret (tags ++ uniqueSources sets ++ uniqueCampaigns sets ++
       uniqueBucketLists sets).

(** [if (Array.isArray(v) && v.length > 0) for (var i = 0; cond; i++) ...]. *)
Definition for_if_nonempty_array (limit : option nat)
    (f : list JsVal -> JsVal -> Outcome (list JsVal)) (v : JsVal)
    (tags : list JsVal) : Outcome (list JsVal) :=
  match v with
  | JArr elems =>
      if (0 <? length elems)%nat then
        Js.for_loop (length elems)
          (fun i => (i <? length elems)%nat &&
                    match limit with
                    | Some k => (i <? k)%nat
                    | None => true
                    end)
          (fun tags i => f tags (Js.index elems i)) 0%nat tags
      else Ret tags
  | _ => Ret tags
  end.

Definition _createTags (object : JsVal) : Outcome (list JsVal) :=
  source ← Js.get object "source";
  tags ← for_if_nonempty_array None
          (fun tags entry =>
             t ← name_tag _createSourceMarker entry; Ret (tags ++ [t]))
          source [];
  campaign ← Js.get object "campaign";
  tags ← for_if_nonempty_array None
          (fun tags entry =>
             t ← name_tag _createCampaignMarkger entry; Ret (tags ++ [t]))
          campaign tags;
  bucket_list ← Js.get object "bucket_list";
  for_if_nonempty_array (Some 5%nat)
    (fun tags label => Ret (tags ++ [label])) bucket_list tags.

(** ** Per-type lookups

    Each lookup issues its GET request(s) when it is called and does the
    rest of its work in the request callback.  The functions below are those
    callbacks: what the lookup passes to its own callback [cb], [inl error]
    for [cb(error)] and [inr results] for [cb(null, results)]. *)

(** [body.objects]. *)
Definition body_objects (body : Body) : Outcome (option (list JsVal)) :=
  match body with
  | NoBody => Throw "TypeError: Cannot read properties of undefined"
  | NoObjects => Ret None
  | Objects objs => Ret (Some objs)
  end.

(** The array behind [critObjects.length] or [critObjects.forEach]. *)
Definition the_array (v : option (list JsVal)) : Outcome (list JsVal) :=
  match v with
  | Some objs => Ret objs
  | None => Throw "TypeError: Cannot read properties of undefined"
  end.

Definition miss (entityObj : Entity) : LookupResult :=
  {| entity := entityObj; displayValue := None; data := None |}.

(** The result pushed for one record of an IP or domain search. *)
Definition record_result (type key segment : string)
    (url : Options -> JsVal -> Outcome string)
    (entityObj : Entity) (options : Options) (object : JsVal)
  : Outcome LookupResult :=
  critsLookupUrl ← url options object;
  display ← Js.get object key;
  tags ← _createTags object;
  bucket_list ← Js.get object "bucket_list";
  campaign ← Js.get object "campaign";
  description ← Js.get object "description";
  modified ← Js.get object "modified";
  source ← Js.get object "source";
  threat_types ← Js.get object "threat_types";
  _id ← Js.get object "_id";
  patch ← _getPatchDescriptionUri segment _id options;
  Ret {| entity := entityObj;
         displayValue := Some display;
         data := Some {|
           summary := tags;
           details := JObj [("type", JStr type);
                            ("critsLookupUrl", JStr critsLookupUrl);
                            ("bucketList", bucket_list);
                            ("campaign", campaign);
                            ("description", description);
                            ("modified", modified);
                            ("source", source);
                            ("threatTypes", threat_types);
                            ("patchDescriptionUri", JStr patch)] |} |}.

(** The request callback shared in shape by [_lookupIP] and
    [_lookupDomains]. *)
Definition single_lookup
    (shape : Entity -> Options -> JsVal -> Outcome LookupResult)
    (entityObj : Entity) (options : Options) (reply : Reply)
  : Outcome (string + list LookupResult) :=
  error ← _getErrorMessage (reply_err reply) (reply_response reply)
            (reply_body reply);
  match error with
  | Some error => Ret (inl error)
  | None =>
      critObjects ← body_objects (reply_body reply);
      critObjects ← the_array critObjects;
      if (length critObjects =? 0)%nat then Ret (inr [miss entityObj])
      else
        results ← Js.for_loop (length critObjects)
                    (fun i => (i <? length critObjects)%nat)
                    (fun results i =>
                       r ← shape entityObj options (Js.index critObjects i);
                       Ret (results ++ [r]))
                    0%nat [];
        Ret (inr results)
  end.

Definition _lookupIP : Entity -> Options -> Reply ->
                       Outcome (string + list LookupResult) :=
  single_lookup (record_result "ip" "ip" "ips" _getCritsIpUrl).

Definition _lookupDomains : Entity -> Options -> Reply ->
                            Outcome (string + list LookupResult) :=
  single_lookup (record_result "domain" "domain" "domains" _getCritsDomainUrl).

(** The callback of each of the two requests of a hash lookup: what it
    passes to the callback of its [async.parallel] task. *)
Definition _processHashResults (reply : Reply)
  : Outcome (string + option (list JsVal)) :=
  error ← _getErrorMessage (reply_err reply) (reply_response reply)
            (reply_body reply);
  match error with
  | Some error => Ret (inl error)
  | None =>
      critObjects ← body_objects (reply_body reply);
      Ret (inr critObjects)
  end.

Definition hash_sample_entry (options : Options) (critsObject : JsVal)
  : Outcome JsVal :=
  filename ← Js.get critsObject "filename";
  filenames ← Js.get critsObject "filenames";
  critsLookupUrl ← _getCritsSampleUrl options critsObject;
  bucket_list ← Js.get critsObject "bucket_list";
  campaign ← Js.get critsObject "campaign";
  description ← Js.get critsObject "description";
  modified ← Js.get critsObject "modified";
  source ← Js.get critsObject "source";
  _id ← Js.get critsObject "_id";
  patch ← _getPatchDescriptionUri "indicator" _id options;
  Ret (JObj [("filename", filename);
             ("filenames", filenames);
             ("critsLookupUrl", JStr critsLookupUrl);
             ("bucketList", bucket_list);
             ("campaign", campaign);
             ("description", description);
             ("modified", modified);
             ("source", source);
             ("patchDescriptionUri", JStr patch)]).

Definition hash_indicator_entry (options : Options) (critsObject : JsVal)
  : Outcome JsVal :=
  critsLookupUrl ← _getCritsHashUrl options critsObject;
  bucket_list ← Js.get critsObject "bucket_list";
  campaign ← Js.get critsObject "campaign";
  description ← Js.get critsObject "description";
  modified ← Js.get critsObject "modified";
  source ← Js.get critsObject "source";
  threat_types ← Js.get critsObject "threat_types";
  _id ← Js.get critsObject "_id";
  patch ← _getPatchDescriptionUri "indicator" _id options;
  Ret (JObj [("critsLookupUrl", JStr critsLookupUrl);
             ("bucketList", bucket_list);
             ("campaign", campaign);
             ("description", description);
             ("modified", modified);
             ("source", source);
             ("threatTypes", threat_types);
             ("patchDescriptionUri", JStr patch)]).

(** The final callback of [async.parallel] in [_lookupHash] when neither
    task reported an error: [results.hashIndicators] and
    [results.hashSamples] are what the two tasks passed on. *)
Definition _lookupHash (entityObj : Entity) (options : Options)
    (results_hashIndicators results_hashSamples : option (list JsVal))
  : Outcome (list LookupResult) :=
  samples ← the_array results_hashSamples;
  hs ← Js.forEach (fun acc critsObject =>
                     entry ← hash_sample_entry options critsObject;
                     Ret (acc ++ [entry])) samples [];
  indicators ← the_array results_hashIndicators;
  hi ← Js.forEach (fun acc critsObject =>
                     entry ← hash_indicator_entry options critsObject;
                     Ret (acc ++ [entry])) indicators [];
  let details := {| hashSamples := hs; hashIndicators := hi |} in
  if (length indicators =? 0)%nat && (length samples =? 0)%nat then
    Ret [{| entity := entityObj; displayValue := None; data := None |}]
  else
    tags ← _createHashTags details;
    Ret [{| entity := entityObj; displayValue := None;
            data := Some {| summary := tags;
                            details := HashDetails_value details |} |}].

(** ** The dispatcher

    [doLookup] validates the options, then hands every entity to
    [async.each].  The iteratee runs for all entities at once: it issues the
    requests of an entity's lookup, or calls [next(null)] for an entity that
    is not looked up.  Replies arrive later, in any order; each one runs
    the callback of its request.  The state below is what those callbacks
    share. *)

(** What [cb] was called with: [cb_err] is [None] for null, [cb_results] is
    [None] where no second argument was passed.  The results passed are the
    array [lookupResults] itself; [cb_results] holds its content at the time
    of the call. *)
Record CallbackArgs : Type := {
  cb_err : option string;
  cb_results : option (list LookupResult)
}.

(** One task of the [async.parallel] of a hash lookup. *)
Inductive Slot : Type :=
| Waiting
| Got (objs : option (list JsVal))   (* the task passed on [body.objects] *)
| Failed.                            (* the task reported an error *)

Inductive SingleKind : Type := IpLookup | DomainLookup.

(** A lookup in flight. *)
Inductive Task : Type :=
| Single (kind : SingleKind) (entityObj : Entity) (answered : bool)
| Parallel (entityObj : Entity) (hashIndicators hashSamples : Slot).

Record State : Type := {
  tasks : list Task;
  requests : list string;               (* URIs of the GETs issued so far *)
  total : nat;                          (* async.each: number of entities *)
  completed : nat;                      (* async.each: iteratees done *)
  lookupResults : list LookupResult;
  callback : option CallbackArgs;       (* the call of [cb], once made *)
  crashed : option string               (* an exception nobody caught *)
}.

Definition set_tasks (ts : list Task) (st : State) : State :=
  {| tasks := ts; requests := requests st; total := total st;
     completed := completed st; lookupResults := lookupResults st;
     callback := callback st; crashed := crashed st |}.

Definition issue (t : Task) (uris : list string) (st : State) : State :=
  {| tasks := tasks st ++ [t]; requests := requests st ++ uris;
     total := total st; completed := completed st;
     lookupResults := lookupResults st;
     callback := callback st; crashed := crashed st |}.

Definition push_results (results : list LookupResult) (st : State) : State :=
  {| tasks := tasks st; requests := requests st; total := total st;
     completed := completed st;
     lookupResults := lookupResults st ++ results;
     callback := callback st; crashed := crashed st |}.

Definition crash (msg : string) (st : State) : State :=
  {| tasks := tasks st; requests := requests st; total := total st;
     completed := completed st; lookupResults := lookupResults st;
     callback := callback st; crashed := Some msg |}.

(** The final callback of [async.each], which the library calls at most
    once: [cb(err, lookupResults)]. *)
Definition finish (err : option string) (st : State) : State :=
  match callback st with
  | Some _ => st
  | None =>
      {| tasks := tasks st; requests := requests st; total := total st;
         completed := completed st; lookupResults := lookupResults st;
         callback := Some {| cb_err := err;
                             cb_results := Some (lookupResults st) |};
         crashed := crashed st |}
  end.

(** [next(err)], the callback async.each gives the iteratee: an error goes
    to the final callback at once, a success is counted and the final
    callback runs when every iteratee has succeeded. *)
Definition next (err : option string) (st : State) : State :=
  match err with
  | Some e => finish (Some e) st
  | None =>
      let st' :=
        {| tasks := tasks st; requests := requests st; total := total st;
           completed := S (completed st);
           lookupResults := lookupResults st;
           callback := callback st; crashed := crashed st |} in
      if (completed st' =? total st')%nat then finish None st' else st'
  end.

(** The iteratee of [async.each], up to the point where it has issued its
    requests. *)
Definition iteratee (options : Options) (st : State) (entityObj : Entity)
  : Outcome State :=
  if isIP entityObj && lookupIps options then
    uri ← _getIpUri (value entityObj) options;
    Ret (issue (Single IpLookup entityObj false) [uri] st)
  else if (isMD5 entityObj || isSHA1 entityObj || isSHA256 entityObj)
          && lookupHashes options then
    uri1 ← _getHashUri (hashType entityObj) (value entityObj) options;
    uri2 ← _getHashSampleUri (hashType entityObj) (value entityObj) options;
    Ret (issue (Parallel entityObj Waiting Waiting) [uri1; uri2] st)
  else if isDomain entityObj && lookupDomains options then
    uri ← _getCritsDomainUri (value entityObj) options;
    Ret (issue (Single DomainLookup entityObj false) [uri] st)
  else
    (* entity is not a supported type so just continue *)
    Ret (next None st).

(** [async.each(entities, iteratee, final)]: the final callback runs at once
    for an empty collection; otherwise the iteratee is started for every
    entity in turn.  An exception thrown by the iteratee leaves the loop. *)
Fixpoint each_from (options : Options) (entities : list Entity) (st : State)
  : State :=
  match entities with
  | [] => st
  | entityObj :: rest =>
      match iteratee options st entityObj with
      | Ret st' => each_from options rest st'
      | Throw msg => crash msg st
      end
  end.

Definition async_each (entities : list Entity) (options : Options) : State :=
  let st := {| tasks := []; requests := []; total := length entities;
               completed := 0; lookupResults := []; callback := None;
               crashed := None |} in
  each_from options entities
            (if (length entities =? 0)%nat then finish None st else st).

(** The state [doLookup] leaves behind when it returns. *)
Definition doLookup (entities : list Entity) (options : Options) : State :=
  match _validateOptions options with
  | Some validationResult =>
      {| tasks := []; requests := []; total := 0; completed := 0;
         lookupResults := [];
         callback := Some {| cb_err := Some validationResult;
                             cb_results := None |};
         crashed := None |}
  | None => async_each entities options
  end.

(** *** Replies *)

Inductive Which : Type := TheRequest | IndicatorSearch | SampleSearch.

(** The reply to one request of the lookup [tasks !! ev_task]. *)
Record Event : Type := {
  ev_task : nat;
  ev_which : Which;
  ev_reply : Reply
}.

(** The callback the three branches of the iteratee pass to their lookup:
    on an error [next(err)], otherwise the results are pushed and
    [next(null)] is called.  [cb(error)] with an empty error string takes
    the second branch and reads [results.length] of undefined. *)
Definition lookup_done (r : string + list LookupResult) (st : State) : State :=
  match r with
  | inl err =>
      if String.eqb err "" then
        crash "TypeError: Cannot read properties of undefined" st
      else next (Some err) st
  | inr results => next None (push_results results st)
  end.

(** What a task of [async.parallel] leaves in its slot: an error counts
    only if it is truthy; otherwise the task's result is what it passed. *)
Definition slot_of (r : string + option (list JsVal)) : Slot :=
  match r with
  | inl err => if String.eqb err "" then Got None else Failed
  | inr objs => Got objs
  end.

Definition slot_error (r : string + option (list JsVal)) : option string :=
  match r with
  | inl err => if String.eqb err "" then None else Some err
  | inr _ => None
  end.

(** After a task of [async.parallel] has filled its slot ([other] is the
    slot of the other task): the final callback of the hash lookup runs on
    the first error, or when both tasks are done; never twice. *)
Definition parallel_done (options : Options) (entityObj : Entity)
    (err : option string) (other : Slot)
    (indicators samples : Slot) (st : State) : State :=
  match other with
  | Failed => st
  | _ =>
      match err with
      | Some e => lookup_done (inl e) st
      | None =>
          match indicators, samples with
          | Got hi, Got hs =>
              match _lookupHash entityObj options hi hs with
              | Ret results => lookup_done (inr results) st
              | Throw msg => crash msg st
              end
          | _, _ => st
          end
      end
  end.

Definition step (options : Options) (st : State) (ev : Event) : State :=
  match crashed st with
  | Some _ => st
  | None =>
      match tasks st !! ev_task ev, ev_which ev with
      | Some (Single kind entityObj false), TheRequest =>
          let st := set_tasks (<[ev_task ev := Single kind entityObj true]>
                                 (tasks st)) st in
          let lookup := match kind with
                        | IpLookup => _lookupIP
                        | DomainLookup => _lookupDomains
                        end in
          match lookup entityObj options (ev_reply ev) with
          | Ret r => lookup_done r st
          | Throw msg => crash msg st
          end
      | Some (Parallel entityObj Waiting samples), IndicatorSearch =>
          match _processHashResults (ev_reply ev) with
          | Ret r =>
              let mine := slot_of r in
              let st := set_tasks (<[ev_task ev :=
                                       Parallel entityObj mine samples]>
                                     (tasks st)) st in
              parallel_done options entityObj (slot_error r) samples
                            mine samples st
          | Throw msg => crash msg st
          end
      | Some (Parallel entityObj indicators Waiting), SampleSearch =>
          match _processHashResults (ev_reply ev) with
          | Ret r =>
              let mine := slot_of r in
              let st := set_tasks (<[ev_task ev :=
                                       Parallel entityObj indicators mine]>
                                     (tasks st)) st in
              parallel_done options entityObj (slot_error r) indicators
                            indicators mine st
          | Throw msg => crash msg st
          end
      | _, _ => st
      end
  end.

(** The state after the replies of [trace], in that order. *)
Definition run (options : Options) (st : State) (trace : list Event) : State :=
  fold_left (step options) trace st.

(** * Specification-level definitions *)

(** ** Option validation *)

(** A required connection parameter is usable when it is a string of at
    least one character. *)
Definition nonempty_string (v : JsVal) : Prop :=
  exists s, v = JStr s /\ s <> "".

(** The rules of the validator, in the order they are checked: the value,
    the message when it is not a string, the message when it is empty. *)
Definition validation_rules (options : Options)
  : list (JsVal * string * string) :=
  [(hostname options, "No hostname set",
    "Hostname must be at least 1 character");
   (apiKey options, "No API key set",
    "API key must be at least 1 character");
   (username options, "No username set",
    "Username must be at least 1 character")].

Definition violation (rule : JsVal * string * string) : option string :=
  match rule with
  | (JStr "", _, empty) => Some empty
  | (JStr _, _, _) => None
  | (_, missing, _) => Some missing
  end.

(** The message of the first rule that is violated, if any. *)
Definition first_violation (options : Options) : option string :=
  head (omap violation (validation_rules options)).


(** ** Error classification *)

(** The short machine code a transport error carries, if it has one. *)
Definition machine_code (err : JsVal) : option string :=
  match err with
  | JObj props =>
      match Js.assoc "code" props with
      | JStr code => Some code
      | _ => None
      end
  | _ => None
  end.

Definition non_null_object (err : JsVal) : bool :=
  match err with
  | JObj _ | JArr _ => true
  | _ => false
  end.

(** The error a transport error stands for by itself. *)
Definition transport_error (err : JsVal) : option string :=
  match machine_code err with
  | Some code => Some code
  | None => if non_null_object err then Some (Js.JSON_stringify err) else None
  end.

(** The error an HTTP status stands for. *)
Definition status_error (status : Z) : option string :=
  if (status =? 401)%Z then Some msg_unauthorized
  else if (status =? 200)%Z then None
  else Some msg_unknown.

(** The classification in the order the specification gives it. *)
Definition classify (err : JsVal) (status : Z) : option string :=
  match transport_error err with
  | Some e => Some e
  | None => status_error status
  end.

(** ** Hostname formatting *)

Definition with_hostname (h : JsVal) (options : Options) : Options :=
  {| hostname := h; username := username options; apiKey := apiKey options;
     lookupIps := lookupIps options; lookupHashes := lookupHashes options;
     lookupDomains := lookupDomains options |}.

(** Two option objects name the same endpoint when every URL built from
    them starts with the same formatted hostname and carries the same
    credentials, and they enable the same lookups. *)
Definition same_endpoint (o1 o2 : Options) : Prop :=
  _getFormattedHostname o1 = _getFormattedHostname o2 /\
  username o1 = username o2 /\ apiKey o1 = apiKey o2 /\
  lookupIps o1 = lookupIps o2 /\ lookupHashes o1 = lookupHashes o2 /\
  lookupDomains o1 = lookupDomains o2.

(** ** Records and tags *)

(** The property [k] of a value that is not undefined or null. *)
Definition prop (v : JsVal) (k : string) : JsVal :=
  match v with
  | JObj props => Js.assoc k props
  | _ => JUndefined
  end.

(** The elements of an array; nothing for any other value. *)
Definition elements (v : JsVal) : list JsVal :=
  match v with
  | JArr elems => elems
  | _ => []
  end.

(** The tag of one source or campaign entry. *)
Definition tag_text (marker : string) (entry : JsVal) : string :=
  Js.to_string (prop entry "name") +:+ marker.

Definition entry_tag (marker : string) (entry : JsVal) : JsVal :=
  JStr (tag_text marker entry).

Definition not_nullish (v : JsVal) : Prop := Js.nullish v = false.

(** A remote record the lookups can shape: an actual value whose source and
    campaign arrays, where present, hold actual values. *)
Definition record_ok (object : JsVal) : Prop :=
  not_nullish object /\
  Forall not_nullish (elements (prop object "source")) /\
  Forall not_nullish (elements (prop object "campaign")).

(** The elements a bounded index loop visits. *)
Definition visited (limit : option nat) (elems : list JsVal) : list JsVal :=
  match limit with
  | Some k => take k elems
  | None => elems
  end.


(** ** Merged hash tags *)

(** The Set obtained by adding the values [vs], in order, to the Set [s]. *)
Definition add_all (s vs : list JsVal) : list JsVal :=
  fold_left Js.Set_add vs s.

Definition source_tags (item : JsVal) : list JsVal :=
  map (entry_tag _createSourceMarker) (elements (prop item "source")).

Definition campaign_tags (item : JsVal) : list JsVal :=
  map (entry_tag _createCampaignMarkger) (elements (prop item "campaign")).

Definition bucket_labels (item : JsVal) : list JsVal :=
  elements (prop item "bucket_list").

(** The sample-count tag, present when there is at least one sample. *)
Definition count_tags (n : nat) : list JsVal :=
  if (n =? 0)%nat then []
  else [JStr (Js.string_of_nat n +:+ sample_count_marker)].


(** An entry of [details.hashSamples] or [details.hashIndicators] made from
    a record: an object that kept the record's [source] and [campaign]
    and has no [bucket_list] property (the record's list went to
    [bucketList]). *)
Definition entry_of (object entry : JsVal) : Prop :=
  not_nullish entry /\
  prop entry "source" = prop object "source" /\
  prop entry "campaign" = prop object "campaign" /\
  prop entry "bucketList" = prop object "bucket_list" /\
  prop entry "bucket_list" = JUndefined.



(** ** The dispatcher *)

(** An entity matches an enabled lookup: an IP with [lookupIps], an MD5,
    SHA1 or SHA256 hash with [lookupHashes], or a domain with
    [lookupDomains]. *)
Definition supported (options : Options) (entityObj : Entity) : bool :=
  (isIP entityObj && lookupIps options) ||
  ((isMD5 entityObj || isSHA1 entityObj || isSHA256 entityObj)
   && lookupHashes options) ||
  (isDomain entityObj && lookupDomains options).

Definition is_failed (s : Slot) : bool :=
  match s with
  | Failed => true
  | _ => false
  end.

(** The lookup the event belongs to has not called back yet and awaits
    this reply. *)
Definition awaiting (st : State) (ev : Event) : bool :=
  match tasks st !! ev_task ev, ev_which ev with
  | Some (Single _ _ false), TheRequest => true
  | Some (Parallel _ Waiting samples), IndicatorSearch =>
      negb (is_failed samples)
  | Some (Parallel _ indicators Waiting), SampleSearch =>
      negb (is_failed indicators)
  | _, _ => false
  end.

(** Every call of [cb] made so far passed a results array. *)
Definition called_with_results (st : State) : Prop :=
  forall d, callback st = Some d -> exists results, cb_results d = Some results.

(** What the iteratee decides for an entity, whatever the state: the lookup
    to start with the URIs to request, or nothing for an entity that is
    skipped. *)
Definition launch (options : Options) (entityObj : Entity)
  : Outcome (option (Task * list string)) :=
  if isIP entityObj && lookupIps options then
    uri ← _getIpUri (value entityObj) options;
    Ret (Some (Single IpLookup entityObj false, [uri]))
  else if (isMD5 entityObj || isSHA1 entityObj || isSHA256 entityObj)
          && lookupHashes options then
    uri1 ← _getHashUri (hashType entityObj) (value entityObj) options;
    uri2 ← _getHashSampleUri (hashType entityObj) (value entityObj) options;
    Ret (Some (Parallel entityObj Waiting Waiting, [uri1; uri2]))
  else if isDomain entityObj && lookupDomains options then
    uri ← _getCritsDomainUri (value entityObj) options;
    Ret (Some (Single DomainLookup entityObj false, [uri]))
  else Ret None.

(** What the host can observe of a state, and what later replies act on:
    everything but the two counters of [async.each]. *)
Definition same_observables (L R : State) : Prop :=
  tasks L = tasks R /\ requests L = requests R /\
  lookupResults L = lookupResults R /\ callback L = callback R /\
  crashed L = crashed R.

(** [L] counts one more entity than [R], and that entity already done. *)
Definition one_more_done (L R : State) : Prop :=
  same_observables L R /\
  total L = S (total R) /\ completed L = S (completed R).

(** As [one_more_done], or both states crashed alike. *)
Definition one_more_done_or_crashed (L R : State) : Prop :=
  same_observables L R /\
  (crashed L <> None \/
   (total L = S (total R) /\ completed L = S (completed R))).

(** [L] counts one more entity than [R], not started yet; nothing has been
    answered, and [R] has called back exactly if it has nothing to wait
    for. *)
Definition one_more_to_do (L R : State) : Prop :=
  tasks L = tasks R /\ requests L = requests R /\ crashed L = crashed R /\
  lookupResults L = [] /\ lookupResults R = [] /\
  total L = S (total R) /\ completed L = completed R /\
  callback L = None /\
  callback R = if (completed R =? total R)%nat
               then Some {| cb_err := None; cb_results := Some [] |}
               else None.



(** ** Lookups in flight *)

(** A lookup is open until it has called back: a single lookup until its
    request is answered, a hash lookup until one of its searches has failed
    or both have passed their records on. *)
Definition is_open (t : Task) : bool :=
  match t with
  | Single _ _ answered => negb answered
  | Parallel _ Failed _ | Parallel _ _ Failed => false
  | Parallel _ (Got _) (Got _) => false
  | Parallel _ _ _ => true
  end.

Definition open_lookups (ts : list Task) : nat :=
  length (List.filter is_open ts).

(** No search of the lookup has failed. *)
Definition no_failed (t : Task) : bool :=
  match t with
  | Parallel _ Failed _ | Parallel _ _ Failed => false
  | _ => true
  end.

(** What the callback of a request ends up doing to the shared state, once
    it has noted the reply in its task. *)
Inductive Action : Type :=
| Ignore
| Crash (msg : string)
| ReportError (err : string)
| ReportSuccess (results : list LookupResult).

Definition act (a : Action) (st : State) : State :=
  match a with
  | Ignore => st
  | Crash msg => crash msg st
  | ReportError err => next (Some err) st
  | ReportSuccess results => next None (push_results results st)
  end.

(** How an action goes with the change of the task it comes from. *)
Definition moves (t t' : Task) (a : Action) : Prop :=
  match a with
  | Ignore =>
      is_open t' = is_open t /\ (no_failed t = true -> no_failed t' = true)
  | Crash _ =>
      (is_open t' = true -> is_open t = true) /\
      (no_failed t = true -> no_failed t' = true)
  | ReportError err => is_open t = true /\ is_open t' = false /\ err <> ""
  | ReportSuccess _ =>
      is_open t = true /\ is_open t' = false /\
      (no_failed t = true -> no_failed t' = true)
  end.

(** What the callback of a lookup does with what the lookup passed it. *)
Definition action_of (r : string + list LookupResult) : Action :=
  match r with
  | inl err =>
      if String.eqb err ""
      then Crash "TypeError: Cannot read properties of undefined"
      else ReportError err
  | inr results => ReportSuccess results
  end.

(** What a task of a hash lookup does once its slot is filled. *)
Definition parallel_action (options : Options) (entityObj : Entity)
    (err : option string) (other indicators samples : Slot) : Action :=
  match other with
  | Failed => Ignore
  | _ =>
      match err with
      | Some e => action_of (inl e)
      | None =>
          match indicators, samples with
          | Got hi, Got hs =>
              match _lookupHash entityObj options hi hs with
              | Ret results => action_of (inr results)
              | Throw msg => Crash msg
              end
          | _, _ => Ignore
          end
      end
  end.

(** The facts the dispatcher keeps true of its state, [r] entities being
    still to be handed to the iteratee. *)
Record Invariant (r : nat) (st : State) : Prop := {
  inv_bound :
    (completed st + open_lookups (tasks st) + r <= total st)%nat;
  inv_pending :
    callback st = None -> crashed st = None ->
    (completed st + open_lookups (tasks st) + r = total st)%nat /\
    (0 < open_lookups (tasks st) + r)%nat;
  inv_no_failed :
    callback st = None -> Forall (fun t => no_failed t = true) (tasks st);
  inv_success :
    forall d, callback st = Some d -> cb_err d = None ->
              completed st = total st /\
              cb_results d = Some (lookupResults st)
}.

(** The number of GET requests the iteratee issues for an entity: one for
    an IP lookup, two for a hash lookup, one for a domain lookup, in that
    order of precedence, and none for an entity that is skipped. *)
Definition requests_for (options : Options) (entityObj : Entity) : nat :=
  if isIP entityObj && lookupIps options then 1
  else if (isMD5 entityObj || isSHA1 entityObj || isSHA256 entityObj)
          && lookupHashes options then 2
  else if isDomain entityObj && lookupDomains options then 1
  else 0.

Definition count_supported (options : Options) (entities : list Entity)
  : nat :=
  length (List.filter (supported options) entities).

(** ** Strings *)

(** Every character of the string is an ASCII character (code below 128),
    for which the case mappings modelled are those of JavaScript. *)
Fixpoint is_ascii (s : string) : bool :=
  match s with
  | EmptyString => true
  | String c rest => (nat_of_ascii c <? 128)%nat && is_ascii rest
  end.

(** ** Outcomes of a lookup *)

(** What an IP or domain lookup [L] does with a reply, by the
    classification of the reply and the shape of its body: the error of
    the classification is handed over, or rethrown; a reply without error
    whose body is missing, or has an undefined or null [objects], makes
    the lookup throw, as does a record that cannot be read; and no reply
    without error is turned into an error. *)
Definition single_lookup_outcome (L : Outcome (string + list LookupResult))
    (reply : Reply) : Prop :=
  match _getErrorMessage (reply_err reply) (reply_response reply)
                         (reply_body reply) with
  | Throw msg => L = Throw msg
  | Ret (Some err) => L = Ret (inl err)
  | Ret None =>
      match reply_body reply with
      | Objects objs =>
          (~ Forall record_ok objs -> exists msg, L = Throw msg) /\
          (forall err, L <> Ret (inl err))
      | _ => exists msg, L = Throw msg
      end
  end.

(** A request URI under the API root of [host], ending with the
    credentials. *)
Definition authenticated_uri (host u k : string) (uri : string) : Prop :=
  exists path,
    uri = host +:+ "/api/v1/" +:+ path +:+
          "&username=" +:+ u +:+ "&api_key=" +:+ k.

(** * Concrete inputs *)

Definition example_options : Options :=
  {| hostname := JStr "https://crits.example.com/"; username := JStr "analyst";
     apiKey := JStr "k3y"; lookupIps := true; lookupHashes := true;
     lookupDomains := true |}.

(** A record with the same source twice and six bucket-list labels. *)
Definition example_record : JsVal :=
  JObj [("_id", JStr "5a1");
        ("ip", JStr "198.51.100.7");
        ("source", JArr [JObj [("name", JStr "osint")];
                         JObj [("name", JStr "osint")]]);
        ("campaign", JArr [JObj [("name", JStr "apt-x")]]);
        ("bucket_list", JArr [JStr "a"; JStr "b"; JStr "c"; JStr "d";
                              JStr "e"; JStr "f"])].

Definition example_ip : Entity :=
  {| isIP := true; isMD5 := false; isSHA1 := false; isSHA256 := false;
     isDomain := false; isURL := false; hashType := "";
     value := "198.51.100.7" |}.

Definition example_hash : Entity :=
  {| isIP := false; isMD5 := true; isSHA1 := false; isSHA256 := false;
     isDomain := false; isURL := false; hashType := "MD5";
     value := "D41D8CD98F00B204E9800998ECF8427E" |}.

Definition reply_with (status : Z) (body : Body) : Reply :=
  {| reply_err := JNull; reply_response := Some {| statusCode := status |};
     reply_body := body |}.

(** An indicator record with a source and a bucket-list label. *)
Definition example_indicator : JsVal :=
  JObj [("_id", JStr "77f");
        ("source", JArr [JObj [("name", JStr "osint")]]);
        ("bucket_list", JArr [JStr "apt"])].

Definition example_ip2 : Entity :=
  {| isIP := true; isMD5 := false; isSHA1 := false; isSHA256 := false;
     isDomain := false; isURL := false; hashType := "";
     value := "203.0.113.9" |}.

(** Two IP lookups: the first is answered with no record, the second with
    status 401. *)
Definition example_miss_then_unauthorized : list Event :=
  [{| ev_task := 0; ev_which := TheRequest;
      ev_reply := reply_with 200 (Objects []) |};
   {| ev_task := 1; ev_which := TheRequest;
      ev_reply := reply_with 401 NoObjects |}].

(** Options without a hostname. *)
Definition example_no_hostname : Options :=
  {| hostname := JUndefined; username := JStr "analyst"; apiKey := JStr "k3y";
     lookupIps := true; lookupHashes := true; lookupDomains := true |}.

(** The replies of a hash lookup that finds one indicator and no sample. *)
Definition example_one_indicator : list Event :=
  [{| ev_task := 0; ev_which := IndicatorSearch;
      ev_reply := reply_with 200 (Objects [example_indicator]) |};
   {| ev_task := 0; ev_which := SampleSearch;
      ev_reply := reply_with 200 (Objects []) |}].

(** The entry of [details.hashIndicators] made from [example_indicator]. *)
Definition example_indicator_entry : JsVal :=
  JObj [("critsLookupUrl",
         JStr "https://crits.example.com/indicators/details/77f/");
        ("bucketList", JArr [JStr "apt"]);
        ("campaign", JUndefined);
        ("description", JUndefined);
        ("modified", JUndefined);
        ("source", JArr [JObj [("name", JStr "osint")]]);
        ("threatTypes", JUndefined);
        ("patchDescriptionUri",
         JStr "https://crits.example.com/api/v1/indicator/77f&username=analyst&api_key=k3y")].

(** An entity that is a URL and nothing else. *)
Definition example_url : Entity :=
  {| isIP := false; isMD5 := false; isSHA1 := false; isSHA256 := false;
     isDomain := false; isURL := true; hashType := "";
     value := "http://example.org/a" |}.

(** Two IP lookups, both answered with no record. *)
Definition example_two_misses : list Event :=
  [{| ev_task := 1; ev_which := TheRequest;
      ev_reply := reply_with 200 (Objects []) |};
   {| ev_task := 0; ev_which := TheRequest;
      ev_reply := reply_with 200 (Objects []) |}].

(** A late second answer to a request already answered. *)
Definition example_repeated_reply : list Event :=
  [{| ev_task := 0; ev_which := TheRequest;
      ev_reply := reply_with 200 (Objects [example_record]) |}].

(** An entity flagged both as an IP and as a domain. *)
Definition example_ip_and_domain : Entity :=
  {| isIP := true; isMD5 := false; isSHA1 := false; isSHA256 := false;
     isDomain := true; isURL := false; hashType := "";
     value := "192.0.2.1" |}.

(** A transport error whose code is the empty string. *)
Definition example_empty_code : Reply :=
  {| reply_err := JObj [("code", JStr "")]; reply_response := None;
     reply_body := NoBody |}.

(** A hash lookup whose indicators search is refused and whose samples
    search then finds a record. *)
Definition example_refused_then_found : list Event :=
  [{| ev_task := 0; ev_which := IndicatorSearch;
      ev_reply := reply_with 401 NoObjects |};
   {| ev_task := 0; ev_which := SampleSearch;
      ev_reply := reply_with 200 (Objects [example_record]) |}].


(** A reply with neither a transport error nor a response. *)
Definition example_no_response : Reply :=
  {| reply_err := JNull; reply_response := None; reply_body := NoBody |}.

(** A sample record holding the fields the samples search asks for. *)
Definition example_sample : JsVal :=
  JObj [("filename", JStr "a.exe");
        ("campaign", JArr []);
        ("description", JStr "");
        ("modified", JStr "2017-03-01 10:00:00");
        ("source", JArr [JObj [("name", JStr "osint")]])].

(** * Properties *)

(** ** Option validation *)

Lemma violation_None (v : JsVal) (missing empty : string) :
  violation (v, missing, empty) = None <-> nonempty_string v.
Proof.
  split.
  - destruct v as [| | | |s| |]; simpl; try discriminate.
    destruct s; [discriminate|]. intros _. eexists; split; [reflexivity|].
    discriminate.
  - intros (s & -> & Hs). destruct s; [contradiction|reflexivity].
Qed.

Lemma validateOptions_first_violation (options : Options) :
  _validateOptions options = first_violation options.
Proof.
  unfold _validateOptions, first_violation, validation_rules.
  destruct options as [h u k ? ? ?]; simpl.
  destruct h as [| | | |[|? ?]| |]; simpl; try reflexivity;
    destruct k as [| | | |[|? ?]| |]; simpl; try reflexivity;
    destruct u as [| | | |[|? ?]| |]; reflexivity.
Qed.

Lemma first_violation_None (options : Options) :
  first_violation options = None <->
  nonempty_string (hostname options) /\
  nonempty_string (username options) /\
  nonempty_string (apiKey options).
Proof.
  unfold first_violation, validation_rules.
  rewrite <- !violation_None with (missing := "") (empty := "").
  destruct options as [h u k ? ? ?]; simpl.
  destruct h as [| | | |[|? ?]| |]; simpl;
    destruct k as [| | | |[|? ?]| |]; simpl;
    destruct u as [| | | |[|? ?]| |]; simpl; intuition congruence.
Qed.

(** Nothing is in flight after a failed validation, so no reply changes the
    state. *)
Lemma step_no_tasks (options : Options) (st : State) (ev : Event) :
  tasks st = [] -> step options st ev = st.
Proof.
  intros Hts. unfold step. rewrite Hts.
  destruct (crashed st); [reflexivity|].
  destruct (ev_task ev); reflexivity.
Qed.

Lemma run_no_tasks (options : Options) (trace : list Event) (st : State) :
  tasks st = [] -> run options st trace = st.
Proof.
  intros Hts. induction trace as [|ev trace IH]; simpl; [reflexivity|].
  rewrite step_no_tasks by exact Hts. exact IH.
Qed.

(** C2: validation returns null exactly when hostname, username and apiKey
    are each a non-empty string; otherwise it returns the message of the
    first violated rule in the order hostname, apiKey, username; and after
    a failed validation doLookup has issued no request, whatever arrives
    later, its callback having received the message. *)
Theorem validateOptions_gate (options : Options) :
  (_validateOptions options = None <->
     nonempty_string (hostname options) /\
     nonempty_string (username options) /\
     nonempty_string (apiKey options)) /\
  _validateOptions options = first_violation options /\
  (forall (msg : string) (entities : list Entity) (trace : list Event),
      _validateOptions options = Some msg ->
      let st := run options (doLookup entities options) trace in
      requests st = [] /\ tasks st = [] /\ lookupResults st = [] /\
      callback st = Some {| cb_err := Some msg; cb_results := None |}).
Proof.
  split; [|split].
  - rewrite validateOptions_first_violation. apply first_violation_None.
  - apply validateOptions_first_violation.
  - intros msg entities trace Hv. unfold doLookup. rewrite Hv.
    rewrite run_no_tasks by reflexivity. simpl. auto.
Qed.

Lemma validateOptions_gate_witness :
  let st := run example_no_hostname
                (doLookup [example_ip; example_hash] example_no_hostname)
                example_miss_then_unauthorized in
  requests st = [] /\ tasks st = [] /\ lookupResults st = [] /\
  callback st = Some {| cb_err := Some "No hostname set";
                        cb_results := None |}.
Proof.
  apply (proj2 (proj2 (validateOptions_gate example_no_hostname))).
  reflexivity.
Defined.

(** ** Error classification *)

Ltac status_cases response :=
  destruct response as [r|]; simpl; [|reflexivity];
  destruct (statusCode r =? 401)%Z; [reflexivity|];
  destruct (statusCode r =? 200)%Z; reflexivity.

Lemma getErrorMessage_transport (err : JsVal) (response : option Response)
    (body : Body) :
  _getErrorMessage err response body =
  match transport_error err with
  | Some e => Ret (Some e)
  | None => status ← response_status response; Ret (status_error status)
  end.
Proof.
  unfold _getErrorMessage, transport_error, status_error, machine_code.
  destruct err as [| |b|n|s|l|props]; simpl;
    try solve [status_cases response].
  - destruct b; simpl; status_cases response.
  - destruct (n =? 0)%Z; simpl; status_cases response.
  - destruct (String.eqb s ""); simpl; status_cases response.
  - destruct (Js.assoc "code" props); reflexivity.
Qed.

(** C5: the classification of a raw response follows the stated order.  The
    transport error is examined first, and the response is not read for it:
    with or without a response, the result is the transport error's string
    code if it has one, else the serialization of a transport error that is
    a non-null object.  Only then is the status of the response read: the
    authorization message on status 401, else the generic message on a
    status other than 200, else null; with neither such a transport error
    nor a response, reading the status throws.  With a response the
    result is the classification [classify] written in that order.  The
    body plays no part. *)
Theorem getErrorMessage_classification (err : JsVal)
    (response : option Response) (body : Body) :
  match machine_code err with
  | Some code => _getErrorMessage err response body = Ret (Some code)
  | None =>
      if non_null_object err then
        _getErrorMessage err response body =
        Ret (Some (Js.JSON_stringify err))
      else
        match response with
        | Some r =>
            _getErrorMessage err response body =
            Ret (if (statusCode r =? 401)%Z then
                   Some "Unauthorized to access CRITs. Please check username and API key"
                 else if negb (statusCode r =? 200)%Z then
                   Some "There was an unknown error accessing CRITs"
                 else None)
        | None => exists msg, _getErrorMessage err response body = Throw msg
        end
  end /\
  (forall r : Response,
      _getErrorMessage err (Some r) body = Ret (classify err (statusCode r)))
  /\
  (forall body' : Body,
      _getErrorMessage err response body' =
      _getErrorMessage err response body).
Proof.
  split; [|split].
  - rewrite getErrorMessage_transport. unfold transport_error, status_error.
    destruct (machine_code err); [reflexivity|].
    destruct (non_null_object err); [reflexivity|].
    destruct response as [r|]; cbn [response_status mbind Outcome_bind].
    + destruct (statusCode r =? 401)%Z; [reflexivity|].
      destruct (statusCode r =? 200)%Z; reflexivity.
    + eauto.
  - intros r. rewrite getErrorMessage_transport. unfold classify.
    destruct (transport_error err); reflexivity.
  - intros body'. rewrite !getErrorMessage_transport. reflexivity.
Qed.

(** ** Hostname formatting *)

Lemma length_append (s t : string) :
  String.length (s +:+ t) = (String.length s + String.length t)%nat.
Proof. induction s as [|c s IH]; simpl; [reflexivity|]. now rewrite IH. Qed.

Lemma substring_prefix (s t : string) :
  String.substring 0 (String.length s) (s +:+ t) = s.
Proof.
  induction s as [|c s IH]; simpl.
  - destruct t; reflexivity.
  - now rewrite IH.
Qed.

Lemma substring_whole (t : string) :
  String.substring 0 (String.length t) t = t.
Proof. induction t as [|c t IH]; simpl; [reflexivity|]. now rewrite IH. Qed.

Lemma substring_suffix (s t : string) :
  String.substring (String.length s) (String.length t) (s +:+ t) = t.
Proof.
  induction s as [|c s IH]; simpl; [apply substring_whole|exact IH].
Qed.

Lemma endsWith_append (s suffix : string) :
  Js.endsWith (s +:+ suffix) suffix = true.
Proof.
  unfold Js.endsWith. rewrite length_append.
  replace (String.length suffix <=? String.length s + String.length suffix)%nat
    with true by (symmetry; apply Nat.leb_le; lia).
  replace (String.length s + String.length suffix - String.length suffix)%nat
    with (String.length s) by lia.
  rewrite substring_suffix. apply String.eqb_refl.
Qed.

Lemma formatted_hostname_slash (options : Options) (h : string) :
  _getFormattedHostname (with_hostname (JStr (h +:+ "/")) options) = Ret h.
Proof.
  unfold _getFormattedHostname, with_hostname; cbn [hostname].
  rewrite endsWith_append. unfold Js.substring.
  rewrite length_append. cbn [String.length].
  replace (String.length h + 1 - 1 - 0)%nat with (String.length h) by lia.
  now rewrite substring_prefix.
Qed.

Lemma formatted_hostname_plain (options : Options) (h : string) :
  Js.endsWith h "/" = false ->
  _getFormattedHostname (with_hostname (JStr h) options) = Ret h.
Proof.
  intros Hh. unfold _getFormattedHostname, with_hostname; cbn [hostname].
  now rewrite Hh.
Qed.

Lemma forEach_ext {A St : Type} (f g : St -> A -> Outcome St) (arr : list A) :
  (forall s x, f s x = g s x) ->
  forall s, Js.forEach f arr s = Js.forEach g arr s.
Proof.
  intros Hfg. induction arr as [|x arr IH]; intros s; simpl; [reflexivity|].
  rewrite Hfg. destruct (g s x); simpl; [apply IH|reflexivity].
Qed.

Lemma for_loop_ext {St : Type} (cond : nat -> bool)
    (f g : St -> nat -> Outcome St) (fuel : nat) :
  (forall s i, f s i = g s i) ->
  forall i s, Js.for_loop fuel cond f i s = Js.for_loop fuel cond g i s.
Proof.
  intros Hfg. induction fuel as [|fuel IH]; intros i s; simpl; [reflexivity|].
  destruct (cond i); [|reflexivity].
  rewrite Hfg. destruct (g s i); simpl; [apply IH|reflexivity].
Qed.

(** Case analysis on the first computation of two sequences that start
    with the same one. *)
Ltac bind_case :=
  match goal with
  | |- mbind _ ?m = mbind _ ?m => destruct m; simpl; [|reflexivity]
  end.

Section SameEndpoint.

Variables o1 o2 : Options.
Hypothesis Hsame : same_endpoint o1 o2.

Lemma same_auth : _getUriAuthQueryParam o1 = _getUriAuthQueryParam o2.
Proof.
  destruct Hsame as (_ & Hu & Hk & _).
  unfold _getUriAuthQueryParam. now rewrite Hu, Hk.
Qed.

Lemma same_getIpUri value : _getIpUri value o1 = _getIpUri value o2.
Proof.
  unfold _getIpUri. rewrite same_auth. now rewrite (proj1 Hsame).
Qed.

Lemma same_getCritsDomainUri value :
  _getCritsDomainUri value o1 = _getCritsDomainUri value o2.
Proof.
  unfold _getCritsDomainUri. rewrite same_auth. now rewrite (proj1 Hsame).
Qed.

Lemma same_getHashUri hashType value :
  _getHashUri hashType value o1 = _getHashUri hashType value o2.
Proof.
  unfold _getHashUri. rewrite same_auth. now rewrite (proj1 Hsame).
Qed.

Lemma same_getHashSampleUri hashType value :
  _getHashSampleUri hashType value o1 = _getHashSampleUri hashType value o2.
Proof.
  unfold _getHashSampleUri. rewrite same_auth. now rewrite (proj1 Hsame).
Qed.

Lemma same_getPatchDescriptionUri type objectId :
  _getPatchDescriptionUri type objectId o1 =
  _getPatchDescriptionUri type objectId o2.
Proof.
  unfold _getPatchDescriptionUri. rewrite same_auth.
  now rewrite (proj1 Hsame).
Qed.

Lemma same_details_url section key object :
  details_url section key o1 object = details_url section key o2 object.
Proof. unfold details_url. now rewrite (proj1 Hsame). Qed.

Lemma same_record_result type key segment section entityObj object :
  record_result type key segment (details_url section key) entityObj o1
                object =
  record_result type key segment (details_url section key) entityObj o2
                object.
Proof.
  unfold record_result. rewrite same_details_url.
  repeat bind_case. now rewrite same_getPatchDescriptionUri.
Qed.

Lemma same_single_lookup type key segment section entityObj reply :
  single_lookup (record_result type key segment (details_url section key))
                entityObj o1 reply =
  single_lookup (record_result type key segment (details_url section key))
                entityObj o2 reply.
Proof.
  unfold single_lookup.
  destruct (_getErrorMessage _ _ _) as [[e|]|]; simpl; try reflexivity.
  destruct (body_objects _) as [[objs|]|]; simpl; try reflexivity.
  destruct (length objs =? 0)%nat; [reflexivity|].
  erewrite for_loop_ext; [reflexivity|].
  intros s i. simpl. now rewrite same_record_result.
Qed.

Lemma same_hash_sample_entry critsObject :
  hash_sample_entry o1 critsObject = hash_sample_entry o2 critsObject.
Proof.
  unfold hash_sample_entry, _getCritsSampleUrl.
  rewrite same_details_url.
  repeat bind_case. now rewrite same_getPatchDescriptionUri.
Qed.

Lemma same_hash_indicator_entry critsObject :
  hash_indicator_entry o1 critsObject = hash_indicator_entry o2 critsObject.
Proof.
  unfold hash_indicator_entry, _getCritsHashUrl.
  rewrite same_details_url.
  repeat bind_case. now rewrite same_getPatchDescriptionUri.
Qed.

Lemma same_lookupHash entityObj hi hs :
  _lookupHash entityObj o1 hi hs = _lookupHash entityObj o2 hi hs.
Proof.
  unfold _lookupHash.
  destruct (the_array hs) as [samples|]; simpl; [|reflexivity].
  erewrite forEach_ext with (g := fun acc critsObject =>
      entry ← hash_sample_entry o2 critsObject; Ret (acc ++ [entry])).
  2:{ intros s x. now rewrite same_hash_sample_entry. }
  destruct (Js.forEach _ samples []); simpl; [|reflexivity].
  destruct (the_array hi) as [indicators|]; simpl; [|reflexivity].
  erewrite forEach_ext with (g := fun acc critsObject =>
      entry ← hash_indicator_entry o2 critsObject; Ret (acc ++ [entry])).
  2:{ intros s x. now rewrite same_hash_indicator_entry. }
  reflexivity.
Qed.

Lemma same_iteratee st entityObj :
  iteratee o1 st entityObj = iteratee o2 st entityObj.
Proof.
  unfold iteratee.
  rewrite same_getIpUri, same_getHashUri, same_getHashSampleUri,
    same_getCritsDomainUri.
  destruct Hsame as (_ & _ & _ & -> & -> & ->). reflexivity.
Qed.

Lemma same_each_from entities :
  forall st, each_from o1 entities st = each_from o2 entities st.
Proof.
  induction entities as [|e entities IH]; intros st; simpl; [reflexivity|].
  rewrite same_iteratee. destruct (iteratee o2 st e); [apply IH|reflexivity].
Qed.

Lemma same_step st ev : step o1 st ev = step o2 st ev.
Proof.
  unfold step. destruct (crashed st); [reflexivity|].
  destruct (tasks st !! ev_task ev) as [[kind e [|]|e hi hs]|];
    try reflexivity.
  - destruct (ev_which ev); try reflexivity.
    destruct kind; unfold _lookupIP, _lookupDomains, _getCritsIpUrl,
      _getCritsDomainUrl; now rewrite same_single_lookup.
  - unfold parallel_done.
    destruct (ev_which ev), hi, hs; try reflexivity;
      destruct (_processHashResults _) as [r|]; try reflexivity;
      destruct (slot_error r); try reflexivity;
      destruct (slot_of r); try reflexivity;
      now rewrite same_lookupHash.
Qed.

Lemma same_run trace :
  forall st, run o1 st trace = run o2 st trace.
Proof.
  induction trace as [|ev trace IH]; intros st; simpl; [reflexivity|].
  rewrite same_step. apply IH.
Qed.

End SameEndpoint.

Lemma same_endpoint_slash (options : Options) (h : string) :
  Js.endsWith h "/" = false ->
  same_endpoint (with_hostname (JStr (h +:+ "/")) options)
                (with_hostname (JStr h) options).
Proof.
  intros Hh. unfold same_endpoint.
  rewrite formatted_hostname_slash, formatted_hostname_plain by exact Hh.
  repeat split; reflexivity.
Qed.

(** C8: a hostname configured with a single trailing slash and the same
    hostname without it give the same formatted hostname, hence the same
    search URIs, patch URIs and detail URLs; and, the hostname being
    non-empty, the same requests and the same behaviour of doLookup on
    every batch and every sequence of replies. *)
Theorem trailing_slash_stripped (options : Options) (h : string) :
  Js.endsWith h "/" = false ->
  let o1 := with_hostname (JStr (h +:+ "/")) options in
  let o2 := with_hostname (JStr h) options in
  _getFormattedHostname o1 = Ret h /\
  _getFormattedHostname o2 = Ret h /\
  (forall value, _getIpUri value o1 = _getIpUri value o2) /\
  (forall value, _getCritsDomainUri value o1 = _getCritsDomainUri value o2) /\
  (forall hashType value,
      _getHashUri hashType value o1 = _getHashUri hashType value o2) /\
  (forall hashType value,
      _getHashSampleUri hashType value o1 =
      _getHashSampleUri hashType value o2) /\
  (forall type objectId,
      _getPatchDescriptionUri type objectId o1 =
      _getPatchDescriptionUri type objectId o2) /\
  (forall object,
      _getCritsIpUrl o1 object = _getCritsIpUrl o2 object /\
      _getCritsDomainUrl o1 object = _getCritsDomainUrl o2 object /\
      _getCritsHashUrl o1 object = _getCritsHashUrl o2 object /\
      _getCritsSampleUrl o1 object = _getCritsSampleUrl o2 object) /\
  (h <> "" ->
   forall entities trace,
     requests (doLookup entities o1) = requests (doLookup entities o2) /\
     run o1 (doLookup entities o1) trace =
     run o2 (doLookup entities o2) trace).
Proof.
  intros Hh o1 o2.
  pose proof (same_endpoint_slash options h Hh) as Hsame. fold o1 o2 in Hsame.
  split; [apply formatted_hostname_slash|].
  split; [apply formatted_hostname_plain, Hh|].
  split; [intros; now apply same_getIpUri|].
  split; [intros; now apply same_getCritsDomainUri|].
  split; [intros; now apply same_getHashUri|].
  split; [intros; now apply same_getHashSampleUri|].
  split; [intros; now apply same_getPatchDescriptionUri|].
  split; [intros; repeat split; now apply same_details_url|].
  intros Hne entities trace.
  assert (Hd : doLookup entities o1 = doLookup entities o2).
  { unfold doLookup.
    assert (Hv : _validateOptions o1 = _validateOptions o2).
    { unfold _validateOptions, o1, o2, with_hostname; cbn [hostname apiKey username].
      cbn [Js.is_string Js.string_length negb]. rewrite length_append.
      destruct h as [|c h]; [contradiction|]. cbn [String.length].
      reflexivity. }
    rewrite Hv. destruct (_validateOptions o2); [reflexivity|].
    unfold async_each. now apply same_each_from. }
  rewrite Hd. split; [reflexivity|]. now apply same_run.
Qed.

Lemma trailing_slash_stripped_witness :
  _getIpUri "198.51.100.7"
            (with_hostname (JStr "https://crits.example.com/") example_options)
  = _getIpUri "198.51.100.7"
            (with_hostname (JStr "https://crits.example.com") example_options).
Proof.
  apply (trailing_slash_stripped example_options "https://crits.example.com").
  reflexivity.
Defined.

(** ** Loops *)

Lemma get_prop (v : JsVal) (k : string) :
  not_nullish v -> Js.get v k = Ret (prop v k).
Proof. destruct v; simpl; intros H; try reflexivity; discriminate H. Qed.

Lemma name_tag_entry (marker : string) (entry : JsVal) :
  not_nullish entry -> name_tag marker entry = Ret (entry_tag marker entry).
Proof. intros H. unfold name_tag. now rewrite get_prop. Qed.

(** An index loop over [elems = l1 ++ l2] that has reached [length l1]
    visits the elements of [l2] in order, up to the limit. *)
Lemma for_loop_from {St : Type} (limit : option nat)
    (f : St -> JsVal -> Outcome St) (elems l2 : list JsVal) :
  forall (l1 : list JsVal) (s : St),
    elems = l1 ++ l2 ->
    Js.for_loop (length l2)
      (fun i => (i <? length elems)%nat &&
                match limit with
                | Some k => (i <? k)%nat
                | None => true
                end)
      (fun s i => f s (Js.index elems i)) (length l1) s =
    Js.forEach f
      (match limit with
       | Some k => take (k - length l1) l2
       | None => l2
       end) s.
Proof.
  induction l2 as [|x l2 IH]; intros l1 s Helems.
  - simpl. destruct limit; [now rewrite take_nil|reflexivity].
  - cbn [length Js.for_loop].
    replace (length l1 <? length elems)%nat with true
      by (symmetry; apply Nat.ltb_lt; subst elems; rewrite length_app;
          simpl; lia).
    assert (Hx : Js.index elems (length l1) = x).
    { unfold Js.index. subst elems. now rewrite list_lookup_middle. }
    assert (Hnext := fun s' => IH (l1 ++ [x]) s').
    replace (length (l1 ++ [x])) with (S (length l1)) in Hnext
      by (rewrite length_app; simpl; lia).
    assert (Hsplit : elems = (l1 ++ [x]) ++ l2)
      by (now rewrite <- app_assoc).
    destruct limit as [k|]; cbn [andb].
    + destruct (length l1 <? k)%nat eqn:Hk.
      * apply Nat.ltb_lt in Hk. rewrite Hx.
        replace (k - length l1)%nat with (S (k - S (length l1))) by lia.
        cbn [take Js.forEach]. destruct (f s x); simpl; [|reflexivity].
        now apply Hnext.
      * apply Nat.ltb_ge in Hk.
        replace (k - length l1)%nat with 0%nat by lia. reflexivity.
    + rewrite Hx. cbn [Js.forEach]. destruct (f s x); simpl; [|reflexivity].
      now apply Hnext.
Qed.

Lemma for_if_nonempty_array_visits (limit : option nat)
    (f : list JsVal -> JsVal -> Outcome (list JsVal)) (v : JsVal)
    (tags : list JsVal) :
  for_if_nonempty_array limit f v tags =
  Js.forEach f (visited limit (elements v)) tags.
Proof.
  unfold for_if_nonempty_array, visited.
  destruct v as [| | | | |elems|]; simpl;
    try (destruct limit; [now rewrite take_nil|reflexivity]).
  destruct (0 <? length elems)%nat eqn:Hn.
  - etransitivity;
      [exact (for_loop_from limit f elems elems [] tags eq_refl)|].
    simpl. destruct limit; [now rewrite Nat.sub_0_r|reflexivity].
  - apply Nat.ltb_ge in Hn. destruct elems; [|simpl in Hn; lia].
    destruct limit; [now rewrite take_nil|reflexivity].
Qed.

(** A loop that pushes one computed value per element. *)
Lemma forEach_push {A B : Type} (g : A -> Outcome B) (h : A -> B)
    (arr : list A) :
  Forall (fun x => g x = Ret (h x)) arr ->
  forall acc,
    Js.forEach (fun acc x => t ← g x; Ret (acc ++ [t])) arr acc =
    Ret (acc ++ map h arr).
Proof.
  induction 1 as [|x arr Hx _ IH]; intros acc; simpl.
  - now rewrite app_nil_r.
  - rewrite Hx. simpl. rewrite IH. now rewrite <- app_assoc.
Qed.

Lemma Forall_name_tag (marker : string) (entries : list JsVal) :
  Forall not_nullish entries ->
  Forall (fun e => name_tag marker e = Ret (entry_tag marker e)) entries.
Proof.
  intros H. eapply Forall_impl; [exact H|].
  intros e He. now apply name_tag_entry.
Qed.

Lemma forEach_push_each (arr : list JsVal) :
  forall acc,
    Js.forEach (fun acc x => Ret (acc ++ [x])) arr acc = Ret (acc ++ arr).
Proof.
  induction arr as [|x arr IH]; intros acc; simpl.
  - now rewrite app_nil_r.
  - rewrite IH. now rewrite <- app_assoc.
Qed.

(** ** Tags of a single record *)

Lemma createTags_value (object : JsVal) :
  not_nullish object ->
  Forall not_nullish (elements (prop object "source")) ->
  Forall not_nullish (elements (prop object "campaign")) ->
  _createTags object =
    Ret (map (entry_tag _createSourceMarker) (elements (prop object "source"))
         ++ map (entry_tag _createCampaignMarkger)
                (elements (prop object "campaign"))
         ++ take 5 (elements (prop object "bucket_list"))).
Proof.
  intros Hobj Hsrc Hcamp.
  unfold _createTags. rewrite !get_prop by exact Hobj. simpl.
  rewrite !for_if_nonempty_array_visits. unfold visited.
  rewrite (forEach_push _ _ _ (Forall_name_tag _ _ Hsrc)). simpl.
  rewrite !for_if_nonempty_array_visits. unfold visited.
  rewrite (forEach_push _ _ _ (Forall_name_tag _ _ Hcamp)). simpl.
  rewrite !for_if_nonempty_array_visits. unfold visited.
  rewrite forEach_push_each. now rewrite <- app_assoc.
Qed.



(** ** IP and domain lookups *)

Lemma for_loop_cond_ext {St : Type} (c1 c2 : nat -> bool)
    (f : St -> nat -> Outcome St) (fuel : nat) :
  (forall i, c1 i = c2 i) ->
  forall i s, Js.for_loop fuel c1 f i s = Js.for_loop fuel c2 f i s.
Proof.
  intros Hc. induction fuel as [|fuel IH]; intros i s; simpl; [reflexivity|].
  rewrite Hc. destruct (c2 i); [|reflexivity].
  destruct (f s i); simpl; [apply IH|reflexivity].
Qed.

(** A loop over a whole array, by index. *)
Lemma for_loop_whole {St : Type} (f : St -> JsVal -> Outcome St)
    (elems : list JsVal) (s : St) :
  Js.for_loop (length elems) (fun i => (i <? length elems)%nat)
    (fun s i => f s (Js.index elems i)) 0%nat s =
  Js.forEach f elems s.
Proof.
  rewrite for_loop_cond_ext
    with (c2 := fun i => (i <? length elems)%nat && true)
    by (intros i; now rewrite andb_true_r).
  exact (for_loop_from None f elems elems [] s eq_refl).
Qed.

(** A loop that pushes one computed value per element, each related to its
    element by [P]. *)
Lemma forEach_push_rel {A B : Type} (g : A -> Outcome B) (P : A -> B -> Prop)
    (arr : list A) :
  Forall (fun x => exists r, g x = Ret r /\ P x r) arr ->
  forall acc, exists rs,
    Js.forEach (fun acc x => t ← g x; Ret (acc ++ [t])) arr acc =
      Ret (acc ++ rs) /\
    Forall2 P arr rs.
Proof.
  induction 1 as [|x arr (r & Hr & HP) _ IH]; intros acc.
  - exists []. simpl. rewrite app_nil_r. split; [reflexivity|constructor].
  - destruct (IH (acc ++ [r])) as (rs & Hrs & HF).
    exists (r :: rs). simpl. rewrite Hr. simpl. rewrite Hrs.
    rewrite <- app_assoc. split; [reflexivity|now constructor].
Qed.

Lemma formatted_hostname_string (options : Options) (h : string) :
  hostname options = JStr h ->
  exists host, _getFormattedHostname options = Ret host.
Proof.
  intros Hh. unfold _getFormattedHostname. rewrite Hh.
  destruct (Js.endsWith h "/"); eauto.
Qed.



Lemma lookupResults_finish (err : option string) (st : State) :
  lookupResults (finish err st) = lookupResults st.
Proof. unfold finish. destruct (callback st); reflexivity. Qed.

Lemma lookupResults_next (err : option string) (st : State) :
  lookupResults (next err st) = lookupResults st.
Proof.
  unfold next. destruct err; [apply lookupResults_finish|].
  match goal with |- context [if ?c then _ else _] => destruct c end;
    [now rewrite lookupResults_finish|reflexivity].
Qed.

(** The reply to the request of an IP or domain lookup in flight: what
    the lookup returns is pushed onto the results. *)
Lemma single_reply_pushes (options : Options) (st : State) (i : nat)
    (kind : SingleKind) (entityObj : Entity) (reply : Reply)
    (results : list LookupResult) :
  crashed st = None ->
  tasks st !! i = Some (Single kind entityObj false) ->
  match kind with
  | IpLookup => _lookupIP
  | DomainLookup => _lookupDomains
  end entityObj options reply = Ret (inr results) ->
  lookupResults
    (step options st
          {| ev_task := i; ev_which := TheRequest; ev_reply := reply |}) =
  lookupResults st ++ results.
Proof.
  intros Hc Ht Hlookup. unfold step; cbn [ev_task ev_which ev_reply].
  rewrite Hc, Ht, Hlookup. cbn [lookup_done].
  now rewrite lookupResults_next.
Qed.



(** ** Hash lookups *)

Lemma add_all_app (s vs ws : list JsVal) :
  add_all s (vs ++ ws) = add_all (add_all s vs) ws.
Proof. apply fold_left_app. Qed.

Lemma forEach_add_tags (marker : string) (v : JsVal) (s : list JsVal) :
  Forall not_nullish (elements v) ->
  forEach_if_array
    (fun us x => t ← name_tag marker x; Ret (Js.Set_add us t)) v s =
  Ret (add_all s (map (entry_tag marker) (elements v))).
Proof.
  destruct v as [| | | | |elems|]; simpl; try reflexivity.
  intros H. revert s. induction H as [|x elems Hx _ IH]; intros s; simpl.
  - reflexivity.
  - rewrite (name_tag_entry marker x Hx). simpl. apply IH.
Qed.

Lemma forEach_add_labels (v : JsVal) (s : list JsVal) :
  forEach_if_array (fun ub bucket => Ret (Js.Set_add ub bucket)) v s =
  Ret (add_all s (elements v)).
Proof.
  destruct v as [| | | | |elems|]; simpl; try reflexivity.
  revert s. induction elems as [|x elems IH]; intros s; simpl.
  - reflexivity.
  - apply IH.
Qed.

Lemma collect_tags_value (sets : TagSets) (item : JsVal) :
  record_ok item ->
  collect_tags sets item =
  Ret {| uniqueSources := add_all (uniqueSources sets) (source_tags item);
         uniqueCampaigns :=
           add_all (uniqueCampaigns sets) (campaign_tags item);
         uniqueBucketLists :=
           add_all (uniqueBucketLists sets) (bucket_labels item) |}.
Proof.
  intros (Hitem & Hsrc & Hcamp). unfold collect_tags.
  rewrite !get_prop by exact Hitem. simpl.
  rewrite (forEach_add_tags _createSourceMarker _ _ Hsrc). simpl.
  rewrite (forEach_add_tags _createCampaignMarkger _ _ Hcamp). simpl.
  rewrite forEach_add_labels. reflexivity.
Qed.

Lemma forEach_collect_tags (items : list JsVal) :
  Forall record_ok items ->
  forall sets,
    Js.forEach collect_tags items sets =
    Ret {| uniqueSources :=
             add_all (uniqueSources sets) (flat_map source_tags items);
           uniqueCampaigns :=
             add_all (uniqueCampaigns sets) (flat_map campaign_tags items);
           uniqueBucketLists :=
             add_all (uniqueBucketLists sets)
                     (flat_map bucket_labels items) |}.
Proof.
  induction 1 as [|item items Hitem _ IH]; intros sets; simpl.
  - now destruct sets.
  - rewrite (collect_tags_value sets item Hitem). simpl. rewrite IH. simpl.
    now rewrite !add_all_app.
Qed.

Lemma count_tags_value (n : nat) :
  (if (n =? 1)%nat
   then [JStr (Js.string_of_nat n +:+ sample_count_marker)]
   else if (1 <? n)%nat
        then [JStr (Js.string_of_nat n +:+ sample_count_marker)]
        else []) = count_tags n.
Proof.
  unfold count_tags. destruct n as [|[|n]]; reflexivity.
Qed.

(** The merged summary in closed form. *)
Lemma createHashTags_value (details : HashDetails) :
  Forall record_ok (hashSamples details) ->
  Forall record_ok (hashIndicators details) ->
  let items := hashSamples details ++ hashIndicators details in
  _createHashTags details =
  Ret (count_tags (length (hashSamples details)) ++
       add_all [] (flat_map source_tags items) ++
       add_all [] (flat_map campaign_tags items) ++
       add_all [] (flat_map bucket_labels items)).
Proof.
  intros Hs Hi items. unfold _createHashTags.
  rewrite count_tags_value.
  rewrite (forEach_collect_tags _ Hs). simpl.
  rewrite (forEach_collect_tags _ Hi). simpl.
  unfold items. rewrite !flat_map_app, !add_all_app. reflexivity.
Qed.

Lemma hash_sample_entry_of (options : Options) (h : string) (object : JsVal) :
  hostname options = JStr h ->
  not_nullish object ->
  exists entry,
    hash_sample_entry options object = Ret entry /\ entry_of object entry.
Proof.
  intros Hh Hobj.
  destruct (formatted_hostname_string options h Hh) as (host & Hhost).
  unfold hash_sample_entry, _getCritsSampleUrl, details_url,
    _getPatchDescriptionUri.
  rewrite Hhost, !get_prop by exact Hobj. simpl.
  eexists. split; [reflexivity|]. repeat split.
Qed.

Lemma hash_indicator_entry_of (options : Options) (h : string)
    (object : JsVal) :
  hostname options = JStr h ->
  not_nullish object ->
  exists entry,
    hash_indicator_entry options object = Ret entry /\ entry_of object entry.
Proof.
  intros Hh Hobj.
  destruct (formatted_hostname_string options h Hh) as (host & Hhost).
  unfold hash_indicator_entry, _getCritsHashUrl, details_url,
    _getPatchDescriptionUri.
  rewrite Hhost, !get_prop by exact Hobj. simpl.
  eexists. split; [reflexivity|]. repeat split.
Qed.







(** ** The merged summary of a hash lookup *)












(** The builder itself does merge bucket lists, for items that carry them
    under [bucket_list]. *)
Lemma createHashTags_bucket_lists (details : HashDetails) :
  Forall record_ok (hashSamples details) ->
  Forall record_ok (hashIndicators details) ->
  exists tags,
    _createHashTags details =
      Ret (tags ++
           add_all [] (flat_map bucket_labels
                         (hashSamples details ++ hashIndicators details))).
Proof.
  intros Hs Hi. rewrite (createHashTags_value details Hs Hi).
  eexists. now rewrite !app_assoc.
Qed.

(** C6 (the code at the failing input): a hash lookup finds one indicator
    record carrying the bucket-list label "apt".  The label reaches the
    details, under [bucketList], but the summary holds the source tag
    only: [_createHashTags] looks for [bucket_list] on the entries. *)
Theorem hash_summary_lacks_bucket_labels :
  callback (run example_options (doLookup [example_hash] example_options)
                example_one_indicator) =
    Some {| cb_err := None;
            cb_results :=
              Some [{| entity := example_hash;
                       displayValue := None;
                       data := Some {|
                         summary := [JStr ("osint" +:+ _createSourceMarker)];
                         details := HashDetails_value
                           {| hashSamples := [];
                              hashIndicators := [example_indicator_entry] |}
                       |} |}] |} /\
  prop example_indicator "bucket_list" = JArr [JStr "apt"] /\
  prop example_indicator_entry "bucketList" = JArr [JStr "apt"] /\
  prop example_indicator_entry "bucket_list" = JUndefined.
Proof. vm_compute. repeat split; reflexivity. Qed.

(** ** The dispatcher: what is delivered, and when *)

Lemma callback_finish_kept (err : option string) (st : State)
    (d : CallbackArgs) :
  callback st = Some d -> callback (finish err st) = Some d.
Proof. intros H. unfold finish. now rewrite H. Qed.

Lemma callback_next_kept (err : option string) (st : State)
    (d : CallbackArgs) :
  callback st = Some d -> callback (next err st) = Some d.
Proof.
  intros H. unfold next. destruct err; [now apply callback_finish_kept|].
  match goal with |- context [if ?c then _ else _] => destruct c end;
    [|exact H].
  unfold finish; cbn [callback]. now rewrite H.
Qed.

Lemma callback_lookup_done_kept (r : string + list LookupResult) (st : State)
    (d : CallbackArgs) :
  callback st = Some d -> callback (lookup_done r st) = Some d.
Proof.
  intros H. unfold lookup_done. destruct r as [err|results].
  - destruct (String.eqb err ""); [exact H|now apply callback_next_kept].
  - now apply callback_next_kept.
Qed.

Lemma callback_parallel_done_kept (options : Options) (entityObj : Entity)
    (err : option string) (other indicators samples : Slot) (st : State)
    (d : CallbackArgs) :
  callback st = Some d ->
  callback (parallel_done options entityObj err other indicators samples st)
  = Some d.
Proof.
  intros H. unfold parallel_done.
  destruct other; try exact H;
    (destruct err; [now apply callback_lookup_done_kept|]);
    destruct indicators, samples; try exact H;
    (destruct (_lookupHash _ _ _ _);
     [now apply callback_lookup_done_kept|exact H]).
Qed.

(** [cb] is never called a second time. *)
Lemma callback_step_kept (options : Options) (st : State) (ev : Event)
    (d : CallbackArgs) :
  callback st = Some d -> callback (step options st ev) = Some d.
Proof.
  intros H. unfold step. destruct (crashed st); [exact H|].
  destruct (tasks st !! ev_task ev) as [[kind e [|]|e hi hs]|];
    try exact H.
  - destruct (ev_which ev); try exact H.
    match goal with |- context [match ?l with Ret _ => _ | Throw _ => _ end] =>
      destruct l end; [now apply callback_lookup_done_kept|exact H].
  - destruct (ev_which ev), hi, hs; try exact H;
      (destruct (_processHashResults _);
       [now apply callback_parallel_done_kept|exact H]).
Qed.

Lemma callback_run_kept (options : Options) (trace : list Event) :
  forall (st : State) (d : CallbackArgs),
    callback st = Some d -> callback (run options st trace) = Some d.
Proof.
  induction trace as [|ev trace IH]; intros st d H; simpl; [exact H|].
  apply IH. now apply callback_step_kept.
Qed.

Lemma run_app (options : Options) (t1 t2 : list Event) (st : State) :
  run options st (t1 ++ t2) = run options (run options st t1) t2.
Proof. apply fold_left_app. Qed.

(** A reply classified as an error makes the lookup it belongs to report
    that error, which reaches [cb] together with the results array as it
    stands. *)
Lemma step_reports_error (options : Options) (st : State) (ev : Event)
    (err : string) :
  crashed st = None ->
  callback st = None ->
  awaiting st ev = true ->
  _getErrorMessage (reply_err (ev_reply ev)) (reply_response (ev_reply ev))
                   (reply_body (ev_reply ev)) = Ret (Some err) ->
  err <> "" ->
  callback (step options st ev) =
  Some {| cb_err := Some err; cb_results := Some (lookupResults st) |}.
Proof.
  intros Hc Hcb Haw Herr Hne.
  assert (Heq : String.eqb err "" = false) by (now apply String.eqb_neq).
  unfold awaiting in Haw. unfold step. rewrite Hc.
  destruct (tasks st !! ev_task ev) as [[kind e [|]|e hi hs]|];
    try discriminate Haw.
  - destruct (ev_which ev); try discriminate Haw.
    destruct kind; unfold _lookupIP, _lookupDomains, single_lookup;
      rewrite Herr; cbn [mbind Outcome_bind lookup_done]; rewrite Heq;
      unfold next, finish; cbn [callback set_tasks]; rewrite Hcb;
      reflexivity.
  - destruct (ev_which ev), hi, hs; try discriminate Haw;
      unfold _processHashResults; rewrite Herr;
      cbn [mbind Outcome_bind slot_of slot_error]; rewrite Heq;
      cbn [parallel_done lookup_done]; rewrite Heq;
      unfold next, finish; cbn [callback set_tasks]; rewrite Hcb;
      reflexivity.
Qed.

(** C1 (as stated, refuted): a first IP lookup that found nothing has pushed
    its miss result when the second one is refused with status 401; the
    callback then receives the error together with that result. *)
Lemma error_with_partial_results :
  callback (run example_options
                (doLookup [example_ip; example_ip2] example_options)
                example_miss_then_unauthorized) =
  Some {| cb_err :=
            Some "Unauthorized to access CRITs. Please check username and API key";
          cb_results :=
            Some [{| entity := example_ip; displayValue := None;
                     data := None |}] |}.
Proof. vm_compute. reflexivity. Qed.

(** The error path leaves the results array as it is. *)
Lemma step_error_keeps_results (options : Options) (st : State) (ev : Event)
    (err : string) :
  crashed st = None ->
  awaiting st ev = true ->
  _getErrorMessage (reply_err (ev_reply ev)) (reply_response (ev_reply ev))
                   (reply_body (ev_reply ev)) = Ret (Some err) ->
  err <> "" ->
  lookupResults (step options st ev) = lookupResults st.
Proof.
  intros Hc Haw Herr Hne.
  assert (Heq : String.eqb err "" = false) by (now apply String.eqb_neq).
  unfold awaiting in Haw. unfold step. rewrite Hc.
  destruct (tasks st !! ev_task ev) as [[kind e [|]|e hi hs]|];
    try discriminate Haw.
  - destruct (ev_which ev); try discriminate Haw.
    destruct kind; unfold _lookupIP, _lookupDomains, single_lookup;
      rewrite Herr; cbn [mbind Outcome_bind lookup_done]; rewrite Heq;
      unfold next, finish; cbn [callback set_tasks];
      destruct (callback st); reflexivity.
  - destruct (ev_which ev), hi, hs; try discriminate Haw;
      unfold _processHashResults; rewrite Herr;
      cbn [mbind Outcome_bind slot_of slot_error]; rewrite Heq;
      cbn [parallel_done lookup_done]; rewrite Heq;
      unfold next, finish; cbn [callback set_tasks];
      destruct (callback st); reflexivity.
Qed.

(** C1 (amended): when a reply makes a lookup report an error and [cb] has
    not been called yet, [cb] is called at that moment with that error and
    with the results array, which then holds the results of the lookups
    that completed before: the error path removes nothing from the array.
    The error [cb] has received stays that single one, whatever replies
    arrive later. *)
Theorem first_error_reaches_callback (options : Options)
    (entities : list Entity) (earlier later : list Event) (ev : Event)
    (err : string) :
  let st := run options (doLookup entities options) earlier in
  crashed st = None ->
  callback st = None ->
  awaiting st ev = true ->
  _getErrorMessage (reply_err (ev_reply ev)) (reply_response (ev_reply ev))
                   (reply_body (ev_reply ev)) = Ret (Some err) ->
  err <> "" ->
  callback (step options st ev) =
    Some {| cb_err := Some err; cb_results := Some (lookupResults st) |} /\
  lookupResults (step options st ev) = lookupResults st /\
  exists d,
    callback (run options (doLookup entities options)
                  (earlier ++ ev :: later)) = Some d /\
    cb_err d = Some err.
Proof.
  intros st Hc Hcb Haw Herr Hne.
  pose proof (step_reports_error options st ev err Hc Hcb Haw Herr Hne)
    as Hcall.
  split; [exact Hcall|]. split.
  - now apply (step_error_keeps_results options st ev err).
  - eexists. split.
    + rewrite run_app. fold st. cbn [run fold_left].
      apply callback_run_kept. exact Hcall.
    + reflexivity.
Qed.

Lemma first_error_reaches_callback_witness :
  let st := run example_options
                (doLookup [example_ip; example_ip2] example_options)
                [{| ev_task := 0; ev_which := TheRequest;
                    ev_reply := reply_with 200 (Objects []) |}] in
  let ev := {| ev_task := 1; ev_which := TheRequest;
               ev_reply := reply_with 401 NoObjects |} in
  callback (step example_options st ev) =
    Some {| cb_err := Some msg_unauthorized;
            cb_results := Some (lookupResults st) |} /\
  lookupResults (step example_options st ev) = lookupResults st /\
  exists d,
    callback (run example_options
                  (doLookup [example_ip; example_ip2] example_options)
                  ([{| ev_task := 0; ev_which := TheRequest;
                       ev_reply := reply_with 200 (Objects []) |}] ++
                   ev ::
                   [{| ev_task := 0; ev_which := TheRequest;
                       ev_reply :=
                         reply_with 200 (Objects [example_record]) |}]))
    = Some d /\
    cb_err d = Some msg_unauthorized.
Proof.
  refine (first_error_reaches_callback example_options
            [example_ip; example_ip2]
            [{| ev_task := 0; ev_which := TheRequest;
                ev_reply := reply_with 200 (Objects []) |}]
            [{| ev_task := 0; ev_which := TheRequest;
                ev_reply := reply_with 200 (Objects [example_record]) |}]
            {| ev_task := 1; ev_which := TheRequest;
               ev_reply := reply_with 401 NoObjects |}
            msg_unauthorized _ _ _ _ _).
  - reflexivity.
  - reflexivity.
  - reflexivity.
  - reflexivity.
  - discriminate.
Defined.

(** ** The results argument *)

Lemma called_with_results_same (st st' : State) :
  callback st' = callback st ->
  called_with_results st -> called_with_results st'.
Proof. intros Heq H d Hd. apply H. now rewrite <- Heq. Qed.

Lemma called_with_results_finish (err : option string) (st : State) :
  called_with_results st -> called_with_results (finish err st).
Proof.
  intros H d. unfold finish. destruct (callback st) eqn:Hcb.
  - rewrite Hcb. intros Hd. apply H. now rewrite Hcb.
  - cbn [callback]. intros [= <-]. eauto.
Qed.

Lemma called_with_results_next (err : option string) (st : State) :
  called_with_results st -> called_with_results (next err st).
Proof.
  intros H. unfold next. destruct err; [now apply called_with_results_finish|].
  match goal with |- context [if ?c then _ else _] => destruct c end.
  - apply called_with_results_finish.
    now apply (called_with_results_same st).
  - now apply (called_with_results_same st).
Qed.

Lemma called_with_results_lookup_done (r : string + list LookupResult)
    (st : State) :
  called_with_results st -> called_with_results (lookup_done r st).
Proof.
  intros H. unfold lookup_done. destruct r as [err|results].
  - destruct (String.eqb err "");
      [now apply (called_with_results_same st)
      |now apply called_with_results_next].
  - apply called_with_results_next.
    now apply (called_with_results_same st).
Qed.

Lemma called_with_results_parallel_done (options : Options)
    (entityObj : Entity) (err : option string)
    (other indicators samples : Slot) (st : State) :
  called_with_results st ->
  called_with_results
    (parallel_done options entityObj err other indicators samples st).
Proof.
  intros H. unfold parallel_done.
  destruct other; try exact H;
    (destruct err; [now apply called_with_results_lookup_done|]);
    destruct indicators, samples; try exact H;
    (destruct (_lookupHash _ _ _ _);
     [now apply called_with_results_lookup_done
     |now apply (called_with_results_same st)]).
Qed.

Lemma called_with_results_step (options : Options) (st : State) (ev : Event) :
  called_with_results st -> called_with_results (step options st ev).
Proof.
  intros H. unfold step. destruct (crashed st); [exact H|].
  destruct (tasks st !! ev_task ev) as [[kind e [|]|e hi hs]|];
    try exact H.
  - destruct (ev_which ev); try exact H.
    match goal with |- context [match ?l with Ret _ => _ | Throw _ => _ end] =>
      destruct l end.
    + apply called_with_results_lookup_done.
      now apply (called_with_results_same st).
    + now apply (called_with_results_same st).
  - destruct (ev_which ev), hi, hs; try exact H;
      (destruct (_processHashResults _);
       [apply called_with_results_parallel_done
       |]; now apply (called_with_results_same st)).
Qed.

Lemma called_with_results_run (options : Options) (trace : list Event) :
  forall st, called_with_results st ->
             called_with_results (run options st trace).
Proof.
  induction trace as [|ev trace IH]; intros st H; simpl; [exact H|].
  apply IH. now apply called_with_results_step.
Qed.

(** The iteratee either issues the requests of one lookup or, for an
    entity it does not look up, calls [next(null)]. *)
Lemma iteratee_cases (options : Options) (st st' : State)
    (entityObj : Entity) :
  iteratee options st entityObj = Ret st' ->
  (supported options entityObj = true /\
   exists t uris, st' = issue t uris st) \/
  (supported options entityObj = false /\ st' = next None st).
Proof.
  unfold iteratee, supported. intros Hit.
  destruct (isIP entityObj && lookupIps options).
  { destruct (_getIpUri _ _); [|discriminate Hit].
    injection Hit as <-. left. split; [reflexivity|eauto]. }
  destruct ((isMD5 entityObj || isSHA1 entityObj || isSHA256 entityObj)
            && lookupHashes options).
  { destruct (_getHashUri _ _ _); [|discriminate Hit].
    destruct (_getHashSampleUri _ _ _); [|discriminate Hit].
    injection Hit as <-. left. split; [reflexivity|eauto]. }
  destruct (isDomain entityObj && lookupDomains options).
  { destruct (_getCritsDomainUri _ _); [|discriminate Hit].
    injection Hit as <-. left. split; [reflexivity|eauto]. }
  injection Hit as <-. right. split; reflexivity.
Qed.

Lemma called_with_results_iteratee (options : Options) (st st' : State)
    (entityObj : Entity) :
  iteratee options st entityObj = Ret st' ->
  called_with_results st -> called_with_results st'.
Proof.
  intros Hit H.
  destruct (iteratee_cases _ _ _ _ Hit) as [(_ & t & uris & ->)|(_ & ->)].
  - now apply (called_with_results_same st).
  - now apply called_with_results_next.
Qed.

Lemma called_with_results_each_from (options : Options)
    (entities : list Entity) :
  forall st, called_with_results st ->
             called_with_results (each_from options entities st).
Proof.
  induction entities as [|e entities IH]; intros st H; simpl; [exact H|].
  destruct (iteratee options st e) as [st'|msg] eqn:Hit.
  - apply IH. eapply called_with_results_iteratee; eauto.
  - now apply (called_with_results_same st).
Qed.

(** ** Entities that are not looked up *)

Lemma iteratee_launch (options : Options) (st : State) (entityObj : Entity) :
  iteratee options st entityObj =
  match launch options entityObj with
  | Ret (Some (t, uris)) => Ret (issue t uris st)
  | Ret None => Ret (next None st)
  | Throw msg => Throw msg
  end.
Proof.
  unfold iteratee, launch.
  destruct (isIP entityObj && lookupIps options).
  { destruct (_getIpUri _ _); reflexivity. }
  destruct ((isMD5 entityObj || isSHA1 entityObj || isSHA256 entityObj)
            && lookupHashes options).
  { destruct (_getHashUri _ _ _); [|reflexivity].
    destruct (_getHashSampleUri _ _ _); reflexivity. }
  destruct (isDomain entityObj && lookupDomains options).
  { destruct (_getCritsDomainUri _ _); reflexivity. }
  reflexivity.
Qed.

Lemma iteratee_skip (options : Options) (st : State) (entityObj : Entity) :
  supported options entityObj = false ->
  iteratee options st entityObj = Ret (next None st).
Proof.
  unfold supported, iteratee. intros H.
  apply orb_false_elim in H as [H Hd]. apply orb_false_elim in H as [Hi Hh].
  now rewrite Hi, Hh, Hd.
Qed.

Ltac break_states L R :=
  destruct L as [tsL rqL totL cmpL lrL cbL crL];
  destruct R as [tsR rqR totR cmpR lrR cbR crR];
  unfold one_more_done, one_more_done_or_crashed, one_more_to_do,
    same_observables in *;
  cbn [tasks requests total completed lookupResults callback crashed] in *.

Lemma one_more_done_loose (L R : State) :
  one_more_done L R -> one_more_done_or_crashed L R.
Proof. intros (H & Ht & Hc). split; [exact H|right; auto]. Qed.

Lemma one_more_done_set_tasks (ts : list Task) (L R : State) :
  one_more_done L R -> one_more_done (set_tasks ts L) (set_tasks ts R).
Proof. break_states L R. unfold set_tasks; simpl. intuition congruence. Qed.

Lemma one_more_done_issue (t : Task) (uris : list string) (L R : State) :
  one_more_done L R -> one_more_done (issue t uris L) (issue t uris R).
Proof. break_states L R. unfold issue; simpl. intuition congruence. Qed.

Lemma one_more_done_push (results : list LookupResult) (L R : State) :
  one_more_done L R ->
  one_more_done (push_results results L) (push_results results R).
Proof. break_states L R. unfold push_results; simpl. intuition congruence. Qed.

Lemma one_more_done_crash (msg : string) (L R : State) :
  same_observables L R ->
  one_more_done_or_crashed (crash msg L) (crash msg R).
Proof.
  break_states L R. unfold crash; simpl.
  intros (? & ? & ? & ? & ?). split; [now subst|]. left. discriminate.
Qed.

Lemma one_more_done_finish (err : option string) (L R : State) :
  one_more_done L R -> one_more_done (finish err L) (finish err R).
Proof.
  break_states L R. unfold finish; simpl.
  intros ((? & ? & ? & ? & ?) & ? & ?). subst.
  destruct cbR; simpl; repeat split; reflexivity.
Qed.

Lemma one_more_done_next (err : option string) (L R : State) :
  one_more_done L R -> one_more_done (next err L) (next err R).
Proof.
  intros H. unfold next. destruct err; [now apply one_more_done_finish|].
  assert (Hcond : (S (completed L) =? total L)%nat =
                  (S (completed R) =? total R)%nat).
  { destruct H as (_ & -> & ->). reflexivity. }
  cbn [completed total]. rewrite Hcond.
  assert (Hinc : one_more_done
            {| tasks := tasks L; requests := requests L; total := total L;
               completed := S (completed L);
               lookupResults := lookupResults L; callback := callback L;
               crashed := crashed L |}
            {| tasks := tasks R; requests := requests R; total := total R;
               completed := S (completed R);
               lookupResults := lookupResults R; callback := callback R;
               crashed := crashed R |}).
  { break_states L R. simpl. intuition congruence. }
  destruct (S (completed R) =? total R)%nat;
    [now apply one_more_done_finish|exact Hinc].
Qed.

Lemma one_more_done_lookup_done (r : string + list LookupResult)
    (L R : State) :
  one_more_done L R ->
  one_more_done_or_crashed (lookup_done r L) (lookup_done r R).
Proof.
  intros H. unfold lookup_done. destruct r as [err|results].
  - destruct (String.eqb err "").
    + apply one_more_done_crash, H.
    + now apply one_more_done_loose, one_more_done_next.
  - now apply one_more_done_loose, one_more_done_next, one_more_done_push.
Qed.

Lemma one_more_done_parallel_done (options : Options) (entityObj : Entity)
    (err : option string) (other indicators samples : Slot) (L R : State) :
  one_more_done L R ->
  one_more_done_or_crashed
    (parallel_done options entityObj err other indicators samples L)
    (parallel_done options entityObj err other indicators samples R).
Proof.
  intros H. unfold parallel_done.
  destruct other; try (now apply one_more_done_loose);
    (destruct err; [now apply one_more_done_lookup_done|]);
    destruct indicators, samples; try (now apply one_more_done_loose);
    (destruct (_lookupHash _ _ _ _);
     [now apply one_more_done_lookup_done|apply one_more_done_crash, H]).
Qed.

Lemma one_more_done_step (options : Options) (ev : Event) (L R : State) :
  one_more_done_or_crashed L R ->
  one_more_done_or_crashed (step options L ev) (step options R ev).
Proof.
  intros (Hobs & Hcnt). unfold step.
  pose proof Hobs as (Hts & _ & _ & _ & Hcr). rewrite Hts, Hcr.
  destruct (crashed R) eqn:HcrR; [split; [exact Hobs|left; congruence]|].
  destruct Hcnt as [Hcnt|Hcnt]; [congruence|].
  assert (H : one_more_done L R) by (split; [exact Hobs|exact Hcnt]).
  destruct (tasks R !! ev_task ev) as [[kind e [|]|e hi hs]|];
    try (now apply one_more_done_loose).
  - destruct (ev_which ev); try (now apply one_more_done_loose).
    match goal with |- context [match ?l with Ret _ => _ | Throw _ => _ end] =>
      destruct l end.
    + now apply one_more_done_lookup_done, one_more_done_set_tasks.
    + apply one_more_done_crash. now apply one_more_done_set_tasks.
  - destruct (ev_which ev), hi, hs; try (now apply one_more_done_loose);
      (destruct (_processHashResults _);
       [now apply one_more_done_parallel_done, one_more_done_set_tasks
       |apply one_more_done_crash, H]).
Qed.

Lemma one_more_done_run (options : Options) (trace : list Event) :
  forall L R,
    one_more_done_or_crashed L R ->
    one_more_done_or_crashed (run options L trace) (run options R trace).
Proof.
  induction trace as [|ev trace IH]; intros L R H; simpl; [exact H|].
  now apply IH, one_more_done_step.
Qed.

Lemma one_more_done_each_from (options : Options) (entities : list Entity) :
  forall L R,
    one_more_done L R ->
    one_more_done_or_crashed (each_from options entities L)
                             (each_from options entities R).
Proof.
  induction entities as [|x entities IH]; intros L R H; simpl.
  - now apply one_more_done_loose.
  - rewrite !iteratee_launch.
    destruct (launch options x) as [[[t uris]|]|msg].
    + now apply IH, one_more_done_issue.
    + now apply IH, one_more_done_next.
    + apply one_more_done_crash, H.
Qed.

Lemma one_more_to_do_skip (L R : State) :
  one_more_to_do L R -> one_more_done (next None L) R.
Proof.
  break_states L R. unfold next, finish; simpl.
  intros (? & ? & ? & ? & ? & ? & ? & ? & ?). subst. simpl.
  destruct (cmpR =? totR)%nat; simpl; repeat split; reflexivity.
Qed.

Lemma one_more_to_do_issue (t : Task) (uris : list string) (L R : State) :
  one_more_to_do L R -> one_more_to_do (issue t uris L) (issue t uris R).
Proof. break_states L R. unfold issue; simpl. intuition congruence. Qed.

Lemma one_more_to_do_next (L R : State) :
  (completed R < total R)%nat ->
  one_more_to_do L R -> one_more_to_do (next None L) (next None R).
Proof.
  break_states L R. unfold next, finish; simpl.
  intros Hlt (? & ? & ? & ? & ? & ? & ? & ? & Hcb). subst.
  replace (cmpR =? totR)%nat with false in *
    by (symmetry; apply Nat.eqb_neq; lia).
  destruct totR as [|totR]; [lia|].
  destruct (cmpR =? totR)%nat eqn:E; simpl; rewrite ?E; repeat split;
    reflexivity.
Qed.

Lemma one_more_to_do_crash (msg : string) (L R : State) :
  (completed R < total R)%nat ->
  one_more_to_do L R ->
  one_more_done_or_crashed (crash msg L) (crash msg R).
Proof.
  break_states L R. unfold crash; simpl.
  intros Hlt (? & ? & ? & ? & ? & ? & ? & ? & Hcb). subst.
  replace (cmpR =? totR)%nat with false
    by (symmetry; apply Nat.eqb_neq; lia).
  split; [repeat split; reflexivity|]. left. discriminate.
Qed.

Lemma one_more_to_do_each_from (options : Options) (entityObj : Entity)
    (after : list Entity) :
  supported options entityObj = false ->
  forall (before : list Entity) (L R : State),
    one_more_to_do L R ->
    (completed R + length (before ++ after) <= total R)%nat ->
    one_more_done_or_crashed
      (each_from options (before ++ entityObj :: after) L)
      (each_from options (before ++ after) R).
Proof.
  intros Hskip. induction before as [|x before IH]; intros L R H Hle.
  - cbn [app each_from]. rewrite iteratee_skip by exact Hskip.
    now apply one_more_done_each_from, one_more_to_do_skip.
  - cbn [app each_from length] in *. rewrite !iteratee_launch.
    destruct (launch options x) as [[[t uris]|]|msg].
    + apply IH; [now apply one_more_to_do_issue|].
      unfold issue; cbn [completed total]. lia.
    + apply IH; [apply one_more_to_do_next; [lia|exact H]|].
      assert (Hc : completed (next None R) = S (completed R)).
      { unfold next, finish; cbn [completed total callback].
        destruct (S (completed R) =? total R)%nat; [|reflexivity].
        destruct (callback R); reflexivity. }
      assert (Ht : total (next None R) = total R).
      { unfold next, finish; cbn [completed total callback].
        destruct (S (completed R) =? total R)%nat; [|reflexivity].
        destruct (callback R); reflexivity. }
      rewrite Hc, Ht. lia.
    + apply one_more_to_do_crash; [lia|exact H].
Qed.

Lemma async_each_skip (options : Options) (entityObj : Entity)
    (before after : list Entity) :
  supported options entityObj = false ->
  one_more_done_or_crashed
    (async_each (before ++ entityObj :: after) options)
    (async_each (before ++ after) options).
Proof.
  intros Hskip. unfold async_each.
  replace (length (before ++ entityObj :: after) =? 0)%nat with false
    by (rewrite length_app; simpl; symmetry; apply Nat.eqb_neq; lia).
  apply one_more_to_do_each_from; [exact Hskip| |].
  - unfold one_more_to_do, finish.
    destruct (length (before ++ after)) as [|n] eqn:Hn;
      cbn [Nat.eqb tasks requests crashed lookupResults total completed
             callback];
      rewrite length_app in *; cbn [length] in *;
      repeat split; try reflexivity; lia.
  - destruct (length (before ++ after) =? 0)%nat;
      unfold finish; cbn [completed total callback]; lia.
Qed.

(** C9: an entity whose type flags match no enabled lookup is skipped.  Its
    iteratee does nothing but call [next(null)]; and with or without it in
    the batch, the same requests are issued, and after any replies the same
    results are held, [cb] has been called alike (so no error comes from
    it), and the same lookups are in flight. *)
Theorem unsupported_entity_skipped (options : Options) (entityObj : Entity)
    (before after : list Entity) (trace : list Event) :
  supported options entityObj = false ->
  (forall st,
      iteratee options st entityObj = Ret (next None st) /\
      requests (next None st) = requests st /\
      lookupResults (next None st) = lookupResults st /\
      tasks (next None st) = tasks st) /\
  requests (doLookup (before ++ entityObj :: after) options) =
    requests (doLookup (before ++ after) options) /\
  same_observables
    (run options (doLookup (before ++ entityObj :: after) options) trace)
    (run options (doLookup (before ++ after) options) trace).
Proof.
  intros Hskip.
  assert (Hstart : one_more_done_or_crashed
            (doLookup (before ++ entityObj :: after) options)
            (doLookup (before ++ after) options) \/
          doLookup (before ++ entityObj :: after) options =
          doLookup (before ++ after) options).
  { unfold doLookup. destruct (_validateOptions options); [now right|].
    left. now apply async_each_skip. }
  split; [|split].
  - intros st. split; [now apply iteratee_skip|].
    unfold next, finish; cbn [completed total callback].
    destruct (S (completed st) =? total st)%nat; [|repeat split].
    destruct (callback st); repeat split.
  - destruct Hstart as [(Hobs & _)|Heq]; [apply Hobs|now rewrite Heq].
  - destruct Hstart as [H|Heq].
    + apply (one_more_done_run options trace) in H. apply H.
    + rewrite Heq. repeat split.
Qed.

Lemma unsupported_entity_skipped_witness :
  same_observables
    (run example_options
         (doLookup ([example_ip] ++ example_url :: [example_ip2])
                   example_options)
         example_miss_then_unauthorized)
    (run example_options
         (doLookup ([example_ip] ++ [example_ip2]) example_options)
         example_miss_then_unauthorized).
Proof.
  apply (unsupported_entity_skipped example_options example_url
           [example_ip] [example_ip2] example_miss_then_unauthorized).
  reflexivity.
Defined.

(** * Further properties of the dispatcher *)

(** ** Projections of the state transformers *)

Lemma completed_next_null (st : State) :
  completed (next None st) = S (completed st).
Proof.
  unfold next, finish; cbn [completed total callback].
  destruct (S (completed st) =? total st)%nat; [|reflexivity].
  destruct (callback st); reflexivity.
Qed.

Lemma total_next (err : option string) (st : State) :
  total (next err st) = total st.
Proof.
  unfold next, finish. destruct err.
  - destruct (callback st); reflexivity.
  - cbn [completed total callback].
    destruct (S (completed st) =? total st)%nat; [|reflexivity].
    destruct (callback st); reflexivity.
Qed.

Lemma tasks_next (err : option string) (st : State) :
  tasks (next err st) = tasks st.
Proof.
  unfold next, finish. destruct err.
  - destruct (callback st); reflexivity.
  - cbn [completed total callback].
    destruct (S (completed st) =? total st)%nat; [|reflexivity].
    destruct (callback st); reflexivity.
Qed.

Lemma requests_next (err : option string) (st : State) :
  requests (next err st) = requests st.
Proof.
  unfold next, finish. destruct err.
  - destruct (callback st); reflexivity.
  - cbn [completed total callback].
    destruct (S (completed st) =? total st)%nat; [|reflexivity].
    destruct (callback st); reflexivity.
Qed.

Lemma crashed_next (err : option string) (st : State) :
  crashed (next err st) = crashed st.
Proof.
  unfold next, finish. destruct err.
  - destruct (callback st); reflexivity.
  - cbn [completed total callback].
    destruct (S (completed st) =? total st)%nat; [|reflexivity].
    destruct (callback st); reflexivity.
Qed.

Lemma completed_next_error (err : string) (st : State) :
  completed (next (Some err) st) = completed st.
Proof. unfold next, finish. destruct (callback st); reflexivity. Qed.

Lemma callback_next_error (err : string) (st : State) :
  callback (next (Some err) st) =
  match callback st with
  | Some d => Some d
  | None => Some {| cb_err := Some err;
                    cb_results := Some (lookupResults st) |}
  end.
Proof.
  unfold next, finish. destruct (callback st) eqn:E; [exact E|reflexivity].
Qed.

Lemma callback_next_null (st : State) :
  callback (next None st) =
  match callback st with
  | Some d => Some d
  | None =>
      if (S (completed st) =? total st)%nat
      then Some {| cb_err := None; cb_results := Some (lookupResults st) |}
      else None
  end.
Proof.
  unfold next, finish; cbn [completed total callback lookupResults].
  destruct (S (completed st) =? total st)%nat;
    destruct (callback st) eqn:E; cbn [callback]; rewrite ?E; reflexivity.
Qed.

(** ** Counting the lookups in flight *)

Lemma open_lookups_insert (ts : list Task) :
  forall (i : nat) (t t' : Task),
    ts !! i = Some t ->
    (open_lookups (<[i:=t']> ts) + (if is_open t then 1 else 0) =
     open_lookups ts + (if is_open t' then 1 else 0))%nat.
Proof.
  unfold open_lookups.
  induction ts as [|x ts IH]; intros i t t' Hi; [discriminate Hi|].
  destruct i as [|i]; cbn [lookup] in Hi.
  - injection Hi as ->. simpl.
    destruct (is_open t), (is_open t'); simpl; lia.
  - specialize (IH i t t' Hi). simpl.
    destruct (is_open x); simpl; lia.
Qed.

Lemma open_lookups_positive (ts : list Task) (i : nat) (t : Task) :
  ts !! i = Some t -> is_open t = true -> (0 < open_lookups ts)%nat.
Proof.
  unfold open_lookups. revert i.
  induction ts as [|x ts IH]; intros i Hi Ht; [discriminate Hi|].
  destruct i as [|i]; cbn [lookup] in Hi.
  - injection Hi as ->. cbn [List.filter]. rewrite Ht. cbn [length]. lia.
  - specialize (IH i Hi Ht). cbn [List.filter].
    destruct (is_open x); cbn [length]; lia.
Qed.

Lemma open_lookups_app (ts : list Task) (t : Task) :
  open_lookups (ts ++ [t]) =
  (open_lookups ts + (if is_open t then 1 else 0))%nat.
Proof.
  unfold open_lookups. rewrite List.filter_app, length_app. cbn [List.filter].
  destruct (is_open t); reflexivity.
Qed.

(** ** What one reply can do *)

Lemma lookup_done_act (r : string + list LookupResult) (st : State) :
  lookup_done r st = act (action_of r) st.
Proof.
  destruct r as [err|results]; simpl; [|reflexivity].
  destruct (String.eqb err ""); reflexivity.
Qed.

Lemma parallel_done_act (options : Options) (entityObj : Entity)
    (err : option string) (other indicators samples : Slot) (st : State) :
  parallel_done options entityObj err other indicators samples st =
  act (parallel_action options entityObj err other indicators samples) st.
Proof.
  unfold parallel_done, parallel_action.
  destruct other; try reflexivity;
    (destruct err; [apply lookup_done_act|]);
    destruct indicators, samples; try reflexivity;
    (destruct (_lookupHash _ _ _ _); [apply lookup_done_act|reflexivity]).
Qed.

Lemma moves_action_of (r : string + list LookupResult) (t t' : Task) :
  is_open t = true -> is_open t' = false ->
  (no_failed t = true -> no_failed t' = true) ->
  moves t t' (action_of r).
Proof.
  intros Ht Ht' Hnf. destruct r as [err|results]; simpl.
  - destruct (String.eqb_spec err ""); simpl.
    + split; [congruence|exact Hnf].
    + auto.
  - auto.
Qed.

Lemma moves_parallel (options : Options) (entityObj : Entity)
    (r : string + option (list JsVal)) (other : Slot) (first : bool) :
  let t := if first then Parallel entityObj Waiting other
           else Parallel entityObj other Waiting in
  let t' := if first then Parallel entityObj (slot_of r) other
            else Parallel entityObj other (slot_of r) in
  moves t t'
        (if first
         then parallel_action options entityObj (slot_error r) other
                              (slot_of r) other
         else parallel_action options entityObj (slot_error r) other
                              other (slot_of r)).
Proof.
  destruct r as [err|objs]; cbn [slot_of slot_error].
  - destruct (String.eqb_spec err "") as [->|Hne].
    + destruct first, other; simpl; auto;
        destruct (_lookupHash _ _ _ _); simpl; auto.
    + destruct first, other; simpl;
        destruct (String.eqb_spec err ""); simpl; auto; congruence.
  - destruct first, other; simpl; auto;
      destruct (_lookupHash _ _ _ _); simpl; auto.
Qed.

(** A reply is ignored, or crashes the process before any task changes, or
    changes one task and acts on the state accordingly. *)
Lemma step_effect (options : Options) (st : State) (ev : Event) :
  step options st ev = st \/
  (exists msg, crashed st = None /\ step options st ev = crash msg st) \/
  (exists i t t' a,
      crashed st = None /\ tasks st !! i = Some t /\ moves t t' a /\
      step options st ev = act a (set_tasks (<[i:=t']> (tasks st)) st)).
Proof.
  unfold step. destruct (crashed st) eqn:Hc; [now left|].
  destruct (tasks st !! ev_task ev) as [[kind e [|]|e hi hs]|] eqn:Ht;
    try (now left).
  - destruct (ev_which ev); try (now left).
    right; right.
    match goal with |- context [match ?l with Ret _ => _ | Throw _ => _ end] =>
      destruct l as [r|msg] end.
    + exists (ev_task ev), (Single kind e false), (Single kind e true),
        (action_of r).
      split; [reflexivity|]. split; [exact Ht|].
      split; [now apply moves_action_of|apply lookup_done_act].
    + exists (ev_task ev), (Single kind e false), (Single kind e true),
        (Crash msg).
      split; [reflexivity|]. split; [exact Ht|].
      split; [|reflexivity]. simpl. auto.
  - destruct (ev_which ev), hi, hs; try (now left);
      (destruct (_processHashResults _) as [r|msg]; [|right; left; eauto]);
      right; right; rewrite parallel_done_act;
      eexists _, _, _, _; (split; [reflexivity|]); (split; [exact Ht|]);
      (split; [|reflexivity]);
      first [exact (moves_parallel options e r _ true)
            |exact (moves_parallel options e r _ false)
            |exact (moves_parallel options e r Failed true)
            |exact (moves_parallel options e r Failed false)].
Qed.

(** ** The invariant *)

Ltac project_state :=
  cbn [completed total tasks requests callback crashed lookupResults
         set_tasks push_results crash issue act] in *.

Lemma invariant_act (st : State) (i : nat) (t t' : Task) (a : Action) :
  Invariant 0 st ->
  crashed st = None ->
  tasks st !! i = Some t ->
  moves t t' a ->
  Invariant 0 (act a (set_tasks (<[i:=t']> (tasks st)) st)).
Proof.
  intros [HA HB HC HD] Hc Ht Hm.
  pose proof (open_lookups_insert (tasks st) i t t' Ht) as Hopen.
  pose proof (open_lookups_positive (tasks st) i t Ht) as Hpos.
  assert (Hnf : callback st = None -> no_failed t = true).
  { intros Hcb. exact (Forall_lookup_1 _ _ _ _ (HC Hcb) Ht). }
  destruct a as [|msg|err|results]; cbn [moves] in Hm.
  - (* the reply changed a slot and nothing else *)
    destruct Hm as (Ho & Hn). rewrite Ho in Hopen.
    constructor; project_state.
    + destruct (is_open t); lia.
    + intros Hcb Hcr. specialize (HB Hcb Hcr). destruct (is_open t); lia.
    + intros Hcb. apply Forall_insert; auto.
    + exact HD.
  - (* the callback threw *)
    destruct Hm as (Ho & Hn).
    constructor; project_state.
    + destruct (is_open t'), (is_open t);
        first [lia|specialize (Ho eq_refl); discriminate Ho].
    + intros _ Hcr. discriminate Hcr.
    + intros Hcb. apply Forall_insert; auto.
    + exact HD.
  - (* the lookup reported an error *)
    destruct Hm as (Ho & Ho' & _). rewrite Ho, Ho' in Hopen.
    cbv beta iota in Hopen.
    specialize (Hpos Ho).
    constructor; cbn [act];
      rewrite ?completed_next_error, ?total_next, ?tasks_next,
        ?callback_next_error, ?crashed_next, ?lookupResults_next;
      project_state.
    + lia.
    + destruct (callback st); discriminate.
    + destruct (callback st); discriminate.
    + intros d Hd He. destruct (callback st) as [d0|] eqn:Hcb.
      * injection Hd as <-. now apply HD.
      * injection Hd as <-. discriminate He.
  - (* the lookup reported its results *)
    destruct Hm as (Ho & Ho' & Hn). rewrite Ho, Ho' in Hopen.
    cbv beta iota in Hopen.
    specialize (Hpos Ho).
    constructor; cbn [act];
      rewrite ?completed_next_null, ?total_next, ?tasks_next,
        ?callback_next_null, ?crashed_next, ?lookupResults_next;
      project_state.
    + lia.
    + destruct (callback st) eqn:Hcb; [discriminate|].
      destruct (S (completed st) =? total st)%nat eqn:E; [discriminate|].
      intros _ Hcr. apply Nat.eqb_neq in E.
      specialize (HB eq_refl Hcr). lia.
    + destruct (callback st) eqn:Hcb; [discriminate|].
      intros _. apply Forall_insert; auto.
    + intros d Hd He. destruct (callback st) as [d0|] eqn:Hcb.
      * injection Hd as <-. destruct (HD d0 eq_refl He) as [Heq _]. lia.
      * destruct (S (completed st) =? total st)%nat eqn:E;
          [|discriminate Hd].
        apply Nat.eqb_eq in E. injection Hd as <-. split; [exact E|].
        reflexivity.
Qed.

Lemma invariant_crash (r : nat) (msg : string) (st : State) :
  Invariant r st -> Invariant 0 (crash msg st).
Proof.
  intros [HA HB HC HD]. constructor; project_state.
  - lia.
  - intros _ Hcr. discriminate Hcr.
  - exact HC.
  - exact HD.
Qed.

Lemma invariant_step (options : Options) (st : State) (ev : Event) :
  Invariant 0 st -> Invariant 0 (step options st ev).
Proof.
  intros Hinv.
  destruct (step_effect options st ev)
    as [->|[(msg & _ & ->)|(i & t & t' & a & Hc & Ht & Hm & ->)]].
  - exact Hinv.
  - now apply (invariant_crash 0).
  - now apply invariant_act with (t := t).
Qed.

Lemma invariant_run (options : Options) (trace : list Event) :
  forall st, Invariant 0 st -> Invariant 0 (run options st trace).
Proof.
  induction trace as [|ev trace IH]; intros st H; simpl; [exact H|].
  now apply IH, invariant_step.
Qed.

Lemma launch_task (options : Options) (entityObj : Entity) (t : Task)
    (uris : list string) :
  launch options entityObj = Ret (Some (t, uris)) ->
  is_open t = true /\ no_failed t = true /\
  supported options entityObj = true /\
  length uris = requests_for options entityObj.
Proof.
  unfold launch, supported, requests_for.
  destruct (isIP entityObj && lookupIps options).
  { destruct (_getIpUri _ _); [|discriminate].
    intros [= <- <-]. auto. }
  destruct ((isMD5 entityObj || isSHA1 entityObj || isSHA256 entityObj)
            && lookupHashes options).
  { destruct (_getHashUri _ _ _); [|discriminate].
    destruct (_getHashSampleUri _ _ _); [|discriminate].
    intros [= <- <-]. auto. }
  destruct (isDomain entityObj && lookupDomains options).
  { destruct (_getCritsDomainUri _ _); [|discriminate].
    intros [= <- <-]. auto. }
  discriminate.
Qed.

Lemma launch_skip (options : Options) (entityObj : Entity) :
  launch options entityObj = Ret None ->
  supported options entityObj = false /\
  requests_for options entityObj = 0%nat.
Proof.
  unfold launch, supported, requests_for.
  destruct (isIP entityObj && lookupIps options).
  { destruct (_getIpUri _ _); discriminate. }
  destruct ((isMD5 entityObj || isSHA1 entityObj || isSHA256 entityObj)
            && lookupHashes options).
  { destruct (_getHashUri _ _ _); [|discriminate].
    destruct (_getHashSampleUri _ _ _); discriminate. }
  destruct (isDomain entityObj && lookupDomains options).
  { destruct (_getCritsDomainUri _ _); discriminate. }
  auto.
Qed.

(** With a string for hostname no URI builder throws, so the iteratee
    always gets to its end. *)
Lemma launch_returns (options : Options) (h : string) (entityObj : Entity) :
  hostname options = JStr h ->
  exists plan, launch options entityObj = Ret plan.
Proof.
  intros Hh.
  destruct (formatted_hostname_string options h Hh) as (host & Hhost).
  unfold launch, _getIpUri, _getHashUri, _getHashSampleUri,
    _getCritsDomainUri.
  rewrite Hhost. cbn [mbind Outcome_bind].
  destruct (isIP entityObj && lookupIps options); [eauto|].
  destruct ((isMD5 entityObj || isSHA1 entityObj || isSHA256 entityObj)
            && lookupHashes options); [eauto|].
  destruct (isDomain entityObj && lookupDomains options); eauto.
Qed.

Lemma validated_hostname (options : Options) :
  _validateOptions options = None -> exists h, hostname options = JStr h.
Proof.
  unfold _validateOptions.
  destruct (hostname options); simpl; try discriminate. eauto.
Qed.

Lemma invariant_issue (r : nat) (t : Task) (uris : list string) (st : State) :
  is_open t = true -> no_failed t = true ->
  Invariant (S r) st -> Invariant r (issue t uris st).
Proof.
  intros Ho Hn [HA HB HC HD]. constructor; project_state;
    rewrite ?open_lookups_app, ?Ho.
  - lia.
  - intros Hcb Hcr. specialize (HB Hcb Hcr). lia.
  - intros Hcb. apply Forall_app. split; [auto|]. now constructor.
  - exact HD.
Qed.

Lemma invariant_next_null (r : nat) (st : State) :
  Invariant (S r) st -> Invariant r (next None st).
Proof.
  intros [HA HB HC HD].
  constructor;
    rewrite ?completed_next_null, ?total_next, ?tasks_next,
      ?callback_next_null, ?crashed_next, ?lookupResults_next.
  - lia.
  - destruct (callback st) eqn:Hcb; [discriminate|].
    destruct (S (completed st) =? total st)%nat eqn:E; [discriminate|].
    intros _ Hcr. apply Nat.eqb_neq in E. specialize (HB eq_refl Hcr). lia.
  - destruct (callback st) eqn:Hcb; [discriminate|]. intros _. auto.
  - intros d Hd He. destruct (callback st) as [d0|] eqn:Hcb.
    + injection Hd as <-. destruct (HD d0 eq_refl He) as [Heq _]. lia.
    + destruct (S (completed st) =? total st)%nat eqn:E; [|discriminate Hd].
      apply Nat.eqb_eq in E. injection Hd as <-. now split.
Qed.

Lemma invariant_each_from (options : Options) (entities : list Entity) :
  forall st,
    Invariant (length entities) st ->
    Invariant 0 (each_from options entities st).
Proof.
  induction entities as [|e entities IH]; intros st H; [exact H|].
  cbn [each_from length] in *. rewrite iteratee_launch.
  destruct (launch options e) as [[[t uris]|]|msg] eqn:Hl.
  - destruct (launch_task _ _ _ _ Hl) as (Ho & Hn & _).
    now apply IH, invariant_issue.
  - now apply IH, invariant_next_null.
  - now apply (invariant_crash (S (length entities))).
Qed.

Lemma invariant_doLookup (entities : list Entity) (options : Options) :
  Invariant 0 (doLookup entities options).
Proof.
  unfold doLookup. destruct (_validateOptions options) as [msg|].
  - constructor; project_state.
    + cbn. lia.
    + discriminate.
    + discriminate.
    + intros d [= <-]. discriminate.
  - unfold async_each. apply invariant_each_from.
    destruct entities as [|e entities]; cbn [length Nat.eqb].
    + constructor; unfold finish; project_state.
      * cbn. lia.
      * discriminate.
      * discriminate.
      * intros d [= <-] _. now split.
    + constructor; project_state.
      * cbn. lia.
      * intros _ _. cbn. lia.
      * intros _. constructor.
      * discriminate.
Qed.

Lemma invariant_reachable (entities : list Entity) (options : Options)
    (trace : list Event) :
  Invariant 0 (run options (doLookup entities options) trace).
Proof. apply invariant_run, invariant_doLookup. Qed.

(** ** The results argument on completion *)

(** C10: when validation fails, [cb] receives the message alone, its
    results parameter left undefined.  With valid options every call of
    [cb] passes a results array as second argument, and [cb] is called on
    completion: when a lookup reports the first error, with that error and
    the array; and, unless the process has crashed, as soon as no lookup
    is in flight, with the array then, which on success holds all the
    results. *)
Theorem callback_results_argument (options : Options)
    (entities : list Entity) (trace : list Event) :
  let st := run options (doLookup entities options) trace in
  (forall msg,
      _validateOptions options = Some msg ->
      callback st = Some {| cb_err := Some msg; cb_results := None |}) /\
  (_validateOptions options = None ->
   (forall d, callback st = Some d ->
              exists results, cb_results d = Some results) /\
   (forall (ev : Event) (err : string),
       crashed st = None ->
       callback st = None ->
       awaiting st ev = true ->
       _getErrorMessage (reply_err (ev_reply ev))
                        (reply_response (ev_reply ev))
                        (reply_body (ev_reply ev)) = Ret (Some err) ->
       err <> "" ->
       callback (step options st ev) =
       Some {| cb_err := Some err;
               cb_results := Some (lookupResults st) |}) /\
   (crashed st = None ->
    open_lookups (tasks st) = 0%nat ->
    exists d results,
      callback st = Some d /\ cb_results d = Some results /\
      (cb_err d = None -> results = lookupResults st))).
Proof.
  intros st. split.
  - intros msg Hv. unfold st, doLookup. rewrite Hv.
    now rewrite run_no_tasks by reflexivity.
  - intros Hv.
    assert (Hlist : called_with_results st).
    { unfold st, doLookup. rewrite Hv.
      apply called_with_results_run. unfold async_each.
      apply called_with_results_each_from.
      destruct (length entities =? 0)%nat.
      + apply called_with_results_finish. intros d; discriminate.
      + intros d; discriminate. }
    split; [exact Hlist|]. split.
    + intros ev err. apply step_reports_error.
    + intros Hcr Hopen.
      pose proof (invariant_reachable entities options trace) as Hinv.
      fold st in Hinv.
      destruct (callback st) as [d|] eqn:Hcb.
      * destruct (Hlist d Hcb) as (results & Hres).
        exists d, results. split; [reflexivity|]. split; [exact Hres|].
        intros He.
        destruct (inv_success _ _ Hinv d Hcb He) as (_ & Hall).
        congruence.
      * destruct (inv_pending _ _ Hinv Hcb Hcr) as (_ & Hpos). lia.
Qed.

Lemma callback_results_argument_witness :
  callback (run example_no_hostname
                (doLookup [example_ip] example_no_hostname)
                example_miss_then_unauthorized) =
    Some {| cb_err := Some "No hostname set"; cb_results := None |} /\
  (let st := run example_options
                 (doLookup [example_ip; example_ip2] example_options)
                 [{| ev_task := 0; ev_which := TheRequest;
                     ev_reply := reply_with 200 (Objects []) |}] in
   callback
     (step example_options st
           {| ev_task := 1; ev_which := TheRequest;
              ev_reply := reply_with 401 NoObjects |}) =
   Some {| cb_err := Some msg_unauthorized;
           cb_results := Some (lookupResults st) |}) /\
  (let st := run example_options
                 (doLookup [example_ip; example_ip2] example_options)
                 example_two_misses in
   exists d results,
     callback st = Some d /\ cb_results d = Some results /\
     (cb_err d = None -> results = lookupResults st)).
Proof.
  split; [|split].
  - apply (proj1 (callback_results_argument example_no_hostname [example_ip]
                    example_miss_then_unauthorized)).
    reflexivity.
  - refine (proj1 (proj2 (proj2 (callback_results_argument example_options
                    [example_ip; example_ip2]
                    [{| ev_task := 0; ev_which := TheRequest;
                        ev_reply := reply_with 200 (Objects []) |}]) _))
                  {| ev_task := 1; ev_which := TheRequest;
                     ev_reply := reply_with 401 NoObjects |}
                  msg_unauthorized _ _ _ _ _).
    + reflexivity.
    + reflexivity.
    + reflexivity.
    + reflexivity.
    + reflexivity.
    + discriminate.
  - refine (proj2 (proj2 (proj2 (callback_results_argument example_options
                    [example_ip; example_ip2] example_two_misses) _)) _ _).
    + reflexivity.
    + reflexivity.
    + reflexivity.
Defined.

(** ** After the dispatch *)

Lemma step_keeps_requests (options : Options) (st : State) (ev : Event) :
  requests (step options st ev) = requests st /\
  total (step options st ev) = total st /\
  length (tasks (step options st ev)) = length (tasks st).
Proof.
  destruct (step_effect options st ev)
    as [->|[(msg & _ & ->)|(i & t & t' & a & _ & _ & _ & ->)]];
    [auto|auto|].
  destruct a; cbn [act];
    rewrite ?requests_next, ?total_next, ?tasks_next; project_state;
    rewrite ?length_insert; auto.
Qed.

Lemma run_keeps_requests (options : Options) (trace : list Event) :
  forall st,
    requests (run options st trace) = requests st /\
    total (run options st trace) = total st /\
    length (tasks (run options st trace)) = length (tasks st).
Proof.
  induction trace as [|ev trace IH]; intros st; simpl; [auto|].
  destruct (IH (step options st ev)) as (-> & -> & ->).
  apply step_keeps_requests.
Qed.

(** Once every entity is accounted for, no reply adds a result. *)
Lemma step_when_all_done (options : Options) (st : State) (ev : Event) :
  Invariant 0 st ->
  completed st = total st ->
  lookupResults (step options st ev) = lookupResults st /\
  completed (step options st ev) = total (step options st ev).
Proof.
  intros Hinv Hdone.
  destruct (step_effect options st ev)
    as [->|[(msg & _ & ->)|(i & t & t' & a & _ & Ht & Hm & ->)]];
    [auto|auto|].
  pose proof (inv_bound _ _ Hinv) as HA.
  assert (Hclosed : is_open t = true -> False).
  { intros Ho. pose proof (open_lookups_positive _ _ _ Ht Ho). lia. }
  destruct a; cbn [moves] in Hm; cbn [act]; project_state.
  - auto.
  - auto.
  - destruct Hm as (Ho & _). now destruct Hclosed.
  - destruct Hm as (Ho & _). now destruct Hclosed.
Qed.

Lemma run_when_all_done (options : Options) (trace : list Event) :
  forall st,
    Invariant 0 st ->
    completed st = total st ->
    lookupResults (run options st trace) = lookupResults st.
Proof.
  induction trace as [|ev trace IH]; intros st Hinv Hdone; simpl;
    [reflexivity|].
  destruct (step_when_all_done options st ev Hinv Hdone) as (Hlr & Hc).
  rewrite IH; [exact Hlr|now apply invariant_step|exact Hc].
Qed.

(** X1: The callback receives null for the error only when the iteratee of
    every entity has completed and no lookup is in flight; the results it
    receives are then all the results of the batch, and no later reply adds
    to them. *)
Theorem success_callback_is_final (options : Options)
    (entities : list Entity) (trace later : list Event) (d : CallbackArgs) :
  let st := run options (doLookup entities options) trace in
  callback st = Some d ->
  cb_err d = None ->
  completed st = total st /\
  open_lookups (tasks st) = 0%nat /\
  cb_results d = Some (lookupResults st) /\
  lookupResults (run options (doLookup entities options) (trace ++ later)) =
    lookupResults st.
Proof.
  intros st Hd He.
  pose proof (invariant_reachable entities options trace) as Hinv.
  fold st in Hinv.
  destruct (inv_success _ _ Hinv d Hd He) as (Hdone & Hres).
  pose proof (inv_bound _ _ Hinv) as HA.
  split; [exact Hdone|]. split; [lia|]. split; [exact Hres|].
  rewrite run_app. fold st. now apply run_when_all_done.
Qed.

Lemma success_callback_is_final_witness :
  lookupResults
    (run example_options (doLookup [example_ip; example_ip2] example_options)
         (example_two_misses ++ example_repeated_reply)) =
  [miss example_ip2; miss example_ip].
Proof.
  refine (proj2 (proj2 (proj2
    (success_callback_is_final example_options [example_ip; example_ip2]
       example_two_misses example_repeated_reply
       {| cb_err := None;
          cb_results := Some [miss example_ip2; miss example_ip] |} _ _)))).
  - reflexivity.
  - reflexivity.
Defined.

(** X2: As long as the process has not crashed, the callback has been called
    as soon as no lookup is in flight: a batch is never left unanswered. *)
Theorem called_back_when_nothing_in_flight (options : Options)
    (entities : list Entity) (trace : list Event) :
  let st := run options (doLookup entities options) trace in
  crashed st = None ->
  open_lookups (tasks st) = 0%nat ->
  exists d, callback st = Some d.
Proof.
  intros st Hcr Hopen.
  pose proof (invariant_reachable entities options trace) as Hinv.
  fold st in Hinv.
  destruct (callback st) as [d|] eqn:Hcb; [eauto|].
  destruct (inv_pending _ _ Hinv Hcb Hcr) as (_ & Hpos). lia.
Qed.

Lemma called_back_when_nothing_in_flight_witness :
  exists d,
    callback (run example_options
                  (doLookup [example_ip; example_ip2] example_options)
                  example_two_misses) = Some d.
Proof.
  apply (called_back_when_nothing_in_flight example_options
           [example_ip; example_ip2] example_two_misses); reflexivity.
Defined.

(** X3: The callback is called at most once: what it received after some
    replies is what it has received after any further replies. *)
Theorem callback_called_at_most_once (options : Options)
    (entities : list Entity) (trace later : list Event) (d : CallbackArgs) :
  callback (run options (doLookup entities options) trace) = Some d ->
  callback (run options (doLookup entities options) (trace ++ later)) = Some d.
Proof.
  intros Hd. rewrite run_app. now apply callback_run_kept.
Qed.

Lemma callback_called_at_most_once_witness :
  callback (run example_options
                (doLookup [example_ip; example_ip2] example_options)
                (example_miss_then_unauthorized ++ example_repeated_reply)) =
  Some {| cb_err := Some msg_unauthorized;
          cb_results := Some [miss example_ip] |}.
Proof.
  apply (callback_called_at_most_once example_options
           [example_ip; example_ip2] example_miss_then_unauthorized
           example_repeated_reply).
  reflexivity.
Defined.

(** X4: No reply makes the integration issue a request: the GETs of a batch
    are those issued when doLookup is called (there is no retry), and the
    number of entities counted and of lookups started stays what it was. *)
Theorem no_request_after_dispatch (options : Options)
    (entities : list Entity) (trace : list Event) :
  requests (run options (doLookup entities options) trace) =
    requests (doLookup entities options) /\
  total (run options (doLookup entities options) trace) =
    total (doLookup entities options) /\
  length (tasks (run options (doLookup entities options) trace)) =
    length (tasks (doLookup entities options)).
Proof. apply run_keeps_requests. Qed.

(** ** The dispatch *)

Lemma crashed_finish_null (st : State) :
  crashed (finish None st) = crashed st.
Proof. unfold finish. destruct (callback st); reflexivity. Qed.

Lemma each_from_counts (options : Options) (h : string)
    (entities : list Entity) :
  hostname options = JStr h ->
  forall st,
    let st' := each_from options entities st in
    crashed st' = crashed st /\
    total st' = total st /\
    length (requests st') =
      (length (requests st) + list_sum (map (requests_for options) entities))%nat /\
    length (tasks st') =
      (length (tasks st) + count_supported options entities)%nat /\
    (completed st' + count_supported options entities =
     completed st + length entities)%nat.
Proof.
  intros Hh. unfold count_supported.
  induction entities as [|e entities IH]; intros st; cbn zeta.
  - cbn. repeat split; lia.
  - cbn [each_from map list_sum fold_right List.filter length].
    fold (list_sum (map (requests_for options) entities)).
    rewrite iteratee_launch.
    destruct (launch_returns options h e Hh) as (plan & Hl). rewrite Hl.
    destruct plan as [[t uris]|].
    + destruct (launch_task _ _ _ _ Hl) as (_ & _ & Hs & Hn).
      destruct (IH (issue t uris st)) as (-> & -> & -> & -> & Hc).
      rewrite Hs. unfold issue in *; project_state.
      rewrite !length_app, Hn. cbn [length]. repeat split; lia.
    + destruct (launch_skip _ _ Hl) as (Hs & Hn).
      destruct (IH (next None st)) as (-> & -> & -> & -> & Hc).
      rewrite Hs, Hn.
      rewrite completed_next_null in Hc.
      rewrite requests_next, tasks_next, total_next, crashed_next.
      repeat split; lia.
Qed.

(** X5: doLookup itself never throws.  With valid options it issues one GET
    per IP lookup, two per hash lookup and one per domain lookup, starts one
    lookup per supported entity, counts every entity, and counts as
    completed those it skipped. *)
Theorem dispatch_counts (options : Options) (entities : list Entity) :
  crashed (doLookup entities options) = None /\
  (_validateOptions options = None ->
   let st := doLookup entities options in
   length (requests st) = list_sum (map (requests_for options) entities) /\
   length (tasks st) = count_supported options entities /\
   total st = length entities /\
   (completed st + count_supported options entities = length entities)%nat).
Proof.
  unfold doLookup. destruct (_validateOptions options) as [msg|] eqn:Hv.
  - split; [reflexivity|discriminate].
  - destruct (validated_hostname options Hv) as (h & Hh).
    unfold async_each.
    match goal with |- context [each_from options entities ?s] =>
      destruct (each_from_counts options h entities Hh s)
        as (Hcr & Ht & Hr & Hts & Hc) end.
    split.
    + rewrite Hcr. destruct (length entities =? 0)%nat; [|reflexivity].
      apply crashed_finish_null.
    + intros _. cbn zeta. rewrite Hr, Hts, Ht.
      destruct (length entities =? 0)%nat eqn:E; unfold finish in *;
        project_state; repeat split; lia.
Qed.

Lemma dispatch_counts_witness :
  length (requests (doLookup [example_ip_and_domain; example_hash; example_url]
                             example_options)) = 3%nat.
Proof.
  apply (proj2 (dispatch_counts example_options
                  [example_ip_and_domain; example_hash; example_url])).
  reflexivity.
Defined.

(** ** The formatted hostname *)

Lemma substring_split (s : string) :
  forall n,
    (n <= String.length s)%nat ->
    s = String.substring 0 n s +:+
        String.substring n (String.length s - n) s.
Proof.
  induction s as [|c s IH]; intros n Hn.
  - destruct n; reflexivity.
  - destruct n as [|n]; cbn [String.length String.substring].
    + rewrite Nat.sub_0_r. cbn [String.append].
      now rewrite substring_whole.
    + cbn [String.length] in Hn. simpl.
      change (String c s =
              String c (String.substring 0 n s +:+
                        String.substring n (String.length s - n) s)).
      f_equal. apply IH. lia.
Qed.

Lemma endsWith_slash_split (h : string) :
  Js.endsWith h "/" = true ->
  h = Js.substring 0 (String.length h - 1) h +:+ "/".
Proof.
  unfold Js.endsWith, Js.substring. cbn [String.length].
  destruct (1 <=? String.length h)%nat eqn:Hlen; [|discriminate].
  apply Nat.leb_le in Hlen. intros Heq. apply String.eqb_eq in Heq.
  rewrite Nat.sub_0_r.
  rewrite (substring_split h (String.length h - 1)) at 1 by lia.
  replace (String.length h - (String.length h - 1))%nat with 1%nat by lia.
  now rewrite Heq.
Qed.

(** X6: The formatted hostname is the hostname without its last character when
    that is a slash, and the hostname itself otherwise: one slash is
    removed, never more.  A hostname that is not a string makes the
    function throw. *)
Theorem formatted_hostname_cases (options : Options) :
  match hostname options with
  | JStr h =>
      exists r,
        _getFormattedHostname options = Ret r /\
        ((Js.endsWith h "/" = false /\ r = h) \/
         (Js.endsWith h "/" = true /\ h = r +:+ "/"))
  | _ => exists msg, _getFormattedHostname options = Throw msg
  end.
Proof.
  unfold _getFormattedHostname.
  destruct (hostname options) as [| | | |h| |]; eauto.
  destruct (Js.endsWith h "/") eqn:He.
  - eexists. split; [reflexivity|]. right. split; [reflexivity|].
    now apply endsWith_slash_split.
  - eexists. split; [reflexivity|]. now left.
Qed.

(** ** Hash URIs and letter case *)

Lemma lower_upper_char (c : ascii) :
  (nat_of_ascii c <? 128)%nat = true ->
  Js.lower_char (Js.upper_char c) = Js.lower_char c /\
  Js.upper_char (Js.lower_char c) = Js.upper_char c.
Proof.
  destruct c as [[] [] [] [] [] [] [] []]; vm_compute; intros H;
    first [discriminate H|split; reflexivity].
Qed.

Lemma lower_upper_string (s : string) :
  is_ascii s = true ->
  Js.toLowerCase (Js.toUpperCase s) = Js.toLowerCase s /\
  Js.toUpperCase (Js.toLowerCase s) = Js.toUpperCase s.
Proof.
  unfold Js.toLowerCase, Js.toUpperCase.
  induction s as [|c s IH]; cbn [is_ascii Js.map_string]; [auto|].
  intros H. apply andb_true_iff in H as [Hc Hs].
  destruct (lower_upper_char c Hc) as [-> ->].
  destruct (IH Hs) as [-> ->]. auto.
Qed.

(** X7: The two searches of a hash lookup do not depend on the letter case of
    the hash or of the hash type: for ASCII strings, the upper-case and the
    lower-case spelling give the same URIs as the original. *)
Theorem hash_uris_ignore_case (hashType value : string) (options : Options) :
  is_ascii hashType = true ->
  is_ascii value = true ->
  _getHashUri (Js.toLowerCase hashType) (Js.toUpperCase value) options =
    _getHashUri hashType value options /\
  _getHashSampleUri (Js.toUpperCase hashType) (Js.toUpperCase value) options =
    _getHashSampleUri hashType value options.
Proof.
  intros Ht Hv. unfold _getHashUri, _getHashSampleUri.
  destruct (lower_upper_string hashType Ht) as [-> ->].
  destruct (lower_upper_string value Hv) as [-> _]. auto.
Qed.

Lemma hash_uris_ignore_case_witness :
  _getHashUri "md5" "D41D8CD98F00B204E9800998ECF8427E" example_options =
  _getHashUri "MD5" "d41d8cd98f00b204e9800998ecf8427e" example_options.
Proof.
  apply (hash_uris_ignore_case "MD5" "d41d8cd98f00b204e9800998ecf8427e"
           example_options); reflexivity.
Defined.

(** ** Results are only appended *)

Lemma step_appends (options : Options) (st : State) (ev : Event) :
  exists more, lookupResults (step options st ev) = lookupResults st ++ more.
Proof.
  destruct (step_effect options st ev)
    as [->|[(msg & _ & ->)|(i & t & t' & a & _ & _ & _ & ->)]].
  - exists []. now rewrite app_nil_r.
  - exists []. now rewrite app_nil_r.
  - destruct a as [|msg|err|results]; cbn [act];
      rewrite ?lookupResults_next; project_state.
    + exists []. now rewrite app_nil_r.
    + exists []. now rewrite app_nil_r.
    + exists []. now rewrite app_nil_r.
    + now exists results.
Qed.

(** X8: Whatever replies arrive, the results collected so far stay where they
    are: replies only append to them.  This holds after the callback has
    been called too: an IP or domain lookup answered after an error was
    delivered still appends its results to the array the callback was
    given. *)
Theorem results_only_appended (options : Options) (st : State)
    (trace : list Event) :
  (exists more,
      lookupResults (run options st trace) = lookupResults st ++ more) /\
  (forall i kind entityObj reply results d,
      crashed st = None ->
      callback st = Some d ->
      tasks st !! i = Some (Single kind entityObj false) ->
      match kind with
      | IpLookup => _lookupIP
      | DomainLookup => _lookupDomains
      end entityObj options reply = Ret (inr results) ->
      let st' := step options st {| ev_task := i; ev_which := TheRequest;
                                    ev_reply := reply |} in
      callback st' = Some d /\
      lookupResults st' = lookupResults st ++ results).
Proof.
  split.
  - revert st. induction trace as [|ev trace IH]; intros st; simpl.
    + exists []. now rewrite app_nil_r.
    + destruct (IH (step options st ev)) as (more2 & ->).
      destruct (step_appends options st ev) as (more1 & ->).
      exists (more1 ++ more2). now rewrite app_assoc.
  - intros i kind entityObj reply results d Hc Hd Ht Hl st'. split.
    + now apply callback_step_kept.
    + now apply (single_reply_pushes options st i kind entityObj).
Qed.

Lemma results_only_appended_witness :
  let st := run example_options
                (doLookup [example_ip; example_ip2] example_options)
                [{| ev_task := 1; ev_which := TheRequest;
                    ev_reply := reply_with 401 NoObjects |}] in
  let st' := step example_options st
                  {| ev_task := 0; ev_which := TheRequest;
                     ev_reply := reply_with 200 (Objects []) |} in
  callback st' = Some {| cb_err := Some msg_unauthorized;
                         cb_results := Some [] |} /\
  lookupResults st' = [miss example_ip].
Proof.
  refine (proj2 (results_only_appended example_options _ []) 0 IpLookup
            example_ip (reply_with 200 (Objects [])) [miss example_ip]
            {| cb_err := Some msg_unauthorized; cb_results := Some [] |}
            _ _ _ _); reflexivity.
Defined.

(** ** A hash lookup that fails *)

(** X9: When the first of the two searches of a hash lookup to be answered is
    classified as an error, the lookup reports that error; the answer to the
    other search, whether records or another error, is then dropped: it
    adds no result and reaches no callback. *)
Theorem hash_lookup_first_error_wins (options : Options) (st : State)
    (i : nat) (entityObj : Entity) (first second : Which) (r1 r2 : Reply)
    (err : string) (x : string + option (list JsVal)) :
  crashed st = None ->
  callback st = None ->
  tasks st !! i = Some (Parallel entityObj Waiting Waiting) ->
  (first = IndicatorSearch /\ second = SampleSearch) \/
  (first = SampleSearch /\ second = IndicatorSearch) ->
  _getErrorMessage (reply_err r1) (reply_response r1) (reply_body r1) =
    Ret (Some err) ->
  err <> "" ->
  _processHashResults r2 = Ret x ->
  let st' := run options st
                 [{| ev_task := i; ev_which := first; ev_reply := r1 |};
                  {| ev_task := i; ev_which := second; ev_reply := r2 |}] in
  callback st' = Some {| cb_err := Some err;
                         cb_results := Some (lookupResults st) |} /\
  lookupResults st' = lookupResults st /\
  completed st' = completed st /\
  crashed st' = None.
Proof.
  intros Hc Hcb Ht Horder Herr Hne Hx.
  assert (Heq : String.eqb err "" = false) by (now apply String.eqb_neq).
  assert (Hi : (i < length (tasks st))%nat) by (eapply lookup_lt_Some; eauto).
  assert (H1 : _processHashResults r1 = Ret (inl err)).
  { unfold _processHashResults. now rewrite Herr. }
  cbn zeta. unfold run; cbn [fold_left].
  destruct Horder as [(-> & ->)|(-> & ->)].
  - assert (E1 : step options st {| ev_task := i; ev_which := IndicatorSearch;
                                    ev_reply := r1 |} =
                 next (Some err)
                   (set_tasks (<[i := Parallel entityObj Failed Waiting]>
                                 (tasks st)) st)).
    { unfold step; cbn [ev_task ev_which ev_reply]. rewrite Hc, Ht, H1.
      cbn [slot_of slot_error]. rewrite Heq.
      cbn [parallel_done lookup_done]. now rewrite Heq. }
    rewrite E1.
    set (st1 := next (Some err) _).
    assert (Hc1 : crashed st1 = None)
      by (unfold st1; now rewrite crashed_next).
    assert (Ht1 : tasks st1 !! i = Some (Parallel entityObj Failed Waiting))
      by (unfold st1; rewrite tasks_next; cbn [set_tasks tasks];
          now rewrite list_lookup_insert_eq).
    unfold step; cbn [ev_task ev_which ev_reply]. rewrite Hc1, Ht1, Hx.
    cbn [parallel_done set_tasks callback lookupResults completed crashed].
    unfold st1.
    rewrite callback_next_error, lookupResults_next, completed_next_error,
      crashed_next.
    cbn [set_tasks callback lookupResults completed crashed].
    rewrite Hcb. auto.
  - assert (E1 : step options st {| ev_task := i; ev_which := SampleSearch;
                                    ev_reply := r1 |} =
                 next (Some err)
                   (set_tasks (<[i := Parallel entityObj Waiting Failed]>
                                 (tasks st)) st)).
    { unfold step; cbn [ev_task ev_which ev_reply]. rewrite Hc, Ht, H1.
      cbn [slot_of slot_error]. rewrite Heq.
      cbn [parallel_done lookup_done]. now rewrite Heq. }
    rewrite E1.
    set (st1 := next (Some err) _).
    assert (Hc1 : crashed st1 = None)
      by (unfold st1; now rewrite crashed_next).
    assert (Ht1 : tasks st1 !! i = Some (Parallel entityObj Waiting Failed))
      by (unfold st1; rewrite tasks_next; cbn [set_tasks tasks];
          now rewrite list_lookup_insert_eq).
    unfold step; cbn [ev_task ev_which ev_reply]. rewrite Hc1, Ht1, Hx.
    cbn [parallel_done set_tasks callback lookupResults completed crashed].
    unfold st1.
    rewrite callback_next_error, lookupResults_next, completed_next_error,
      crashed_next.
    cbn [set_tasks callback lookupResults completed crashed].
    rewrite Hcb. auto.
Qed.

Lemma hash_lookup_first_error_wins_witness :
  let st' := run example_options (doLookup [example_hash] example_options)
                 example_refused_then_found in
  callback st' = Some {| cb_err := Some msg_unauthorized;
                         cb_results := Some [] |} /\
  lookupResults st' = [] /\
  completed st' = 0%nat /\
  crashed st' = None.
Proof.
  refine (hash_lookup_first_error_wins example_options
            (doLookup [example_hash] example_options) 0 example_hash
            IndicatorSearch SampleSearch
            (reply_with 401 NoObjects)
            (reply_with 200 (Objects [example_record]))
            msg_unauthorized (inr (Some [example_record]))
            _ _ _ _ _ _ _).
  - reflexivity.
  - reflexivity.
  - reflexivity.
  - left. split; reflexivity.
  - reflexivity.
  - discriminate.
  - reflexivity.
Defined.

(** ** An error with an empty code *)

(** X10: A transport error whose code is the empty string is classified as the
    error "", which the callbacks then test for truth.  The callback of an
    IP or domain lookup takes it for a success and throws on the results it
    did not get: nothing is delivered.  A search of a hash lookup counts as
    done without an error, its records undefined. *)
Theorem empty_error_code_is_no_error (options : Options) (st : State)
    (i : nat) (reply : Reply) :
  crashed st = None ->
  machine_code (reply_err reply) = Some "" ->
  (forall kind entityObj,
      tasks st !! i = Some (Single kind entityObj false) ->
      let st' := step options st {| ev_task := i; ev_which := TheRequest;
                                    ev_reply := reply |} in
      crashed st' <> None /\ callback st' = callback st /\
      lookupResults st' = lookupResults st) /\
  (forall entityObj,
      tasks st !! i = Some (Parallel entityObj Waiting Waiting) ->
      let st' := step options st {| ev_task := i; ev_which := IndicatorSearch;
                                    ev_reply := reply |} in
      crashed st' = None /\ callback st' = callback st /\
      tasks st' = <[i := Parallel entityObj (Got None) Waiting]> (tasks st)).
Proof.
  intros Hc Hcode.
  assert (Herr : _getErrorMessage (reply_err reply) (reply_response reply)
                   (reply_body reply) = Ret (Some "")).
  { rewrite getErrorMessage_transport. unfold transport_error.
    now rewrite Hcode. }
  split.
  - intros kind entityObj Ht st'. unfold st', step.
    cbn [ev_task ev_which ev_reply]. rewrite Hc, Ht.
    destruct kind; unfold _lookupIP, _lookupDomains, single_lookup;
      rewrite Herr; cbn [mbind Outcome_bind lookup_done String.eqb];
      cbn [crash set_tasks crashed callback lookupResults];
      repeat split; discriminate.
  - intros entityObj Ht st'. unfold st', step.
    cbn [ev_task ev_which ev_reply]. rewrite Hc, Ht.
    unfold _processHashResults. rewrite Herr.
    cbn [mbind Outcome_bind slot_of slot_error String.eqb parallel_done].
    cbn [set_tasks crashed callback tasks]. auto.
Qed.

Lemma empty_error_code_is_no_error_witness :
  crashed (step example_options (doLookup [example_ip] example_options)
                {| ev_task := 0; ev_which := TheRequest;
                   ev_reply := example_empty_code |}) <> None.
Proof.
  refine (proj1 (proj1 (empty_error_code_is_no_error example_options
                   (doLookup [example_ip] example_options) 0
                   example_empty_code _ _) IpLookup example_ip _)).
  - reflexivity.
  - reflexivity.
  - reflexivity.
Defined.

(** ** When the tag builder throws *)

Lemma forEach_push_returns {A B : Type} (g : A -> Outcome B) (arr : list A) :
  forall acc r,
    Js.forEach (fun acc x => t ← g x; Ret (acc ++ [t])) arr acc = Ret r ->
    Forall (fun x => exists t, g x = Ret t) arr.
Proof.
  induction arr as [|x arr IH]; intros acc r H; [constructor|].
  cbn [Js.forEach] in H. destruct (g x) as [t|msg] eqn:Hx; [|discriminate H].
  cbn [mbind Outcome_bind] in H. constructor; [eauto|]. eapply IH; eauto.
Qed.

Lemma name_tag_returns (marker : string) (entry : JsVal) (t : JsVal) :
  name_tag marker entry = Ret t -> not_nullish entry.
Proof. destruct entry; simpl; intros H; try reflexivity; discriminate H. Qed.

Lemma get_returns (v : JsVal) (k : string) (x : JsVal) :
  Js.get v k = Ret x -> not_nullish v.
Proof. destruct v; simpl; intros H; try reflexivity; discriminate H. Qed.

Lemma createTags_returns (object : JsVal) (tags : list JsVal) :
  _createTags object = Ret tags -> record_ok object.
Proof.
  unfold _createTags. intros H.
  destruct (Js.get object "source") as [source|] eqn:Hs; [|discriminate H].
  pose proof (get_returns _ _ _ Hs) as Hobj.
  rewrite !get_prop in * by exact Hobj. injection Hs as <-.
  cbn [mbind Outcome_bind] in H.
  rewrite !for_if_nonempty_array_visits in H. unfold visited in H.
  destruct (Js.forEach _ (elements (prop object "source")) [])
    as [tags1|] eqn:H1; [|discriminate H].
  cbn [mbind Outcome_bind] in H.
  rewrite !for_if_nonempty_array_visits in H. unfold visited in H.
  destruct (Js.forEach _ (elements (prop object "campaign")) tags1)
    as [tags2|] eqn:H2; [|discriminate H].
  split; [exact Hobj|]. split.
  - apply forEach_push_returns in H1.
    eapply Forall_impl; [exact H1|].
    intros x (t & Ht). eapply name_tag_returns; eauto.
  - apply forEach_push_returns in H2.
    eapply Forall_impl; [exact H2|].
    intros x (t & Ht). eapply name_tag_returns; eauto.
Qed.

(** X11: [_createTags] throws on a record it cannot read: a value that is
    undefined or null, or one whose source or campaign array holds an
    undefined or null entry.  A record whose source and campaign are
    missing, empty or not arrays is read without error, and its summary is
    its first five bucket labels at most. *)
Theorem createTags_unreadable_record (object : JsVal) :
  (~ record_ok object -> exists msg, _createTags object = Throw msg) /\
  (not_nullish object ->
   elements (prop object "source") = [] ->
   elements (prop object "campaign") = [] ->
   _createTags object = Ret (take 5 (elements (prop object "bucket_list")))).
Proof.
  split.
  - intros Hn. destruct (_createTags object) as [tags|msg] eqn:H; [|eauto].
    destruct Hn. eapply createTags_returns; eauto.
  - intros Hobj Hsrc Hcamp.
    rewrite createTags_value; [|exact Hobj|rewrite Hsrc|rewrite Hcamp];
      [|constructor|constructor].
    now rewrite Hsrc, Hcamp.
Qed.

Lemma createTags_unreadable_record_witness :
  (exists msg,
      _createTags (JObj [("source", JArr [JObj [("name", JStr "alpha")];
                                           JNull])]) = Throw msg) /\
  _createTags (JObj [("source", JStr "alpha"); ("campaign", JArr []);
                     ("bucket_list", JArr [JStr "apt"; JStr "dropper"])]) =
    Ret [JStr "apt"; JStr "dropper"].
Proof.
  split.
  - apply (proj1 (createTags_unreadable_record
                    (JObj [("source", JArr [JObj [("name", JStr "alpha")];
                                             JNull])]))).
    intros (_ & Hsrc & _). cbn in Hsrc.
    apply Forall_cons in Hsrc as [_ Hsrc].
    apply Forall_cons in Hsrc as [Hnull _]. discriminate Hnull.
  - apply (proj2 (createTags_unreadable_record
                    (JObj [("source", JStr "alpha"); ("campaign", JArr []);
                           ("bucket_list",
                            JArr [JStr "apt"; JStr "dropper"])])));
      reflexivity.
Defined.

(** ** What a lookup does with a reply *)

Lemma record_result_returns (type key segment section : string)
    (entityObj : Entity) (options : Options) (object : JsVal)
    (r : LookupResult) :
  record_result type key segment (details_url section key) entityObj options
                object = Ret r ->
  record_ok object.
Proof.
  unfold record_result, details_url. intros H.
  destruct (_getFormattedHostname options); [|discriminate H].
  cbn [mbind Outcome_bind] in H.
  destruct (Js.get object key) eqn:Hk; [|discriminate H].
  cbn [mbind Outcome_bind] in H.
  destruct (_createTags object) as [tags|] eqn:Ht; [|discriminate H].
  eapply createTags_returns; eauto.
Qed.

Lemma single_lookup_returns (type key segment section : string)
    (entityObj : Entity) (options : Options) (reply : Reply)
    (objs : list JsVal) (results : list LookupResult) :
  _getErrorMessage (reply_err reply) (reply_response reply)
                   (reply_body reply) = Ret None ->
  reply_body reply = Objects objs ->
  single_lookup (record_result type key segment (details_url section key))
                entityObj options reply = Ret (inr results) ->
  Forall record_ok objs.
Proof.
  intros Herr Hbody H. unfold single_lookup in H.
  rewrite Hbody in H. rewrite <- Hbody in H. rewrite Herr in H.
  rewrite Hbody in H.
  cbn [mbind Outcome_bind body_objects the_array] in H.
  destruct (length objs =? 0)%nat eqn:E.
  - apply Nat.eqb_eq in E. destruct objs; [constructor|discriminate E].
  - rewrite (for_loop_whole
               (fun results object =>
                  r ← record_result type key segment
                        (details_url section key) entityObj options object;
                  Ret (results ++ [r]))) in H.
    destruct (Js.forEach _ objs []) as [rs|] eqn:Hloop; [|discriminate H].
    apply forEach_push_returns in Hloop.
    eapply Forall_impl; [exact Hloop|].
    intros x (r & Hr). eapply record_result_returns; eauto.
Qed.

Lemma single_lookup_outcome_holds (type key segment section : string)
    (entityObj : Entity) (options : Options) (reply : Reply) :
  single_lookup_outcome
    (single_lookup (record_result type key segment (details_url section key))
                   entityObj options reply) reply.
Proof.
  unfold single_lookup_outcome.
  destruct (_getErrorMessage _ _ _) as [[err|]|msg] eqn:Herr.
  - unfold single_lookup. now rewrite Herr.
  - destruct (reply_body reply) as [| |objs] eqn:Hbody.
    + unfold single_lookup. rewrite Hbody, Herr. cbn. eauto.
    + unfold single_lookup. rewrite Hbody, Herr. cbn. eauto.
    + assert (Hnoerr : forall err,
                 single_lookup
                   (record_result type key segment (details_url section key))
                   entityObj options reply <> Ret (inl err)).
      { intros err. unfold single_lookup. rewrite Hbody, Herr.
        cbn [mbind Outcome_bind body_objects the_array].
        destruct (length objs =? 0)%nat; [discriminate|].
        destruct (Js.for_loop _ _ _ _ _); discriminate. }
      split; [|exact Hnoerr].
      intros Hbad.
      destruct (single_lookup _ entityObj options reply)
        as [[err|results]|msg] eqn:HL.
      * now destruct (Hnoerr err).
      * destruct Hbad.
        eapply (single_lookup_returns type key segment section); eauto.
      * eauto.
  - unfold single_lookup. now rewrite Herr.
Qed.

(** X12: An IP or domain lookup hands a reply classified as an error to its
    callback as that error, and throws when the classification throws (no
    transport error and no response).  On a reply without error it throws
    when the body is missing or its [objects] is undefined or null, and
    when one of the records cannot be read (it is undefined or null, or
    has an undefined or null source or campaign entry); it never turns
    such a reply into an error. *)
Theorem single_lookup_outcomes (entityObj : Entity) (options : Options)
    (reply : Reply) :
  single_lookup_outcome (_lookupIP entityObj options reply) reply /\
  single_lookup_outcome (_lookupDomains entityObj options reply) reply.
Proof.
  split.
  - exact (single_lookup_outcome_holds "ip" "ip" "ips" "ips" entityObj
             options reply).
  - exact (single_lookup_outcome_holds "domain" "domain" "domains" "domains"
             entityObj options reply).
Qed.

(** ** The summary of a hash lookup *)



(** ** The merged tags of records that carry their bucket list *)



(** ** Where the requests go *)

Lemma append_assoc (s t u : string) :
  (s +:+ t) +:+ u = s +:+ (t +:+ u).
Proof.
  induction s as [|c s IH]; [reflexivity|].
  change (String c ((s +:+ t) +:+ u) = String c (s +:+ (t +:+ u))).
  now rewrite IH.
Qed.

Lemma auth_param_strings (options : Options) (u k : string) :
  username options = JStr u ->
  apiKey options = JStr k ->
  _getUriAuthQueryParam options =
  "&username=" +:+ u +:+ "&api_key=" +:+ k.
Proof.
  intros Hu Hk. unfold _getUriAuthQueryParam, Js.concat.
  rewrite Hu, Hk. cbn [Js.to_string].
  now rewrite !append_assoc.
Qed.

Lemma launch_authenticated (options : Options) (host u k : string)
    (entityObj : Entity) (t : Task) (uris : list string) :
  _getFormattedHostname options = Ret host ->
  username options = JStr u ->
  apiKey options = JStr k ->
  launch options entityObj = Ret (Some (t, uris)) ->
  Forall (authenticated_uri host u k) uris.
Proof.
  intros Hhost Hu Hk. unfold launch, _getIpUri, _getHashUri,
    _getHashSampleUri, _getCritsDomainUri.
  rewrite Hhost, (auth_param_strings options u k Hu Hk).
  cbn [mbind Outcome_bind].
  destruct (isIP entityObj && lookupIps options).
  { intros [= <- <-]. constructor; [|constructor].
    exists ("ips/?c-ip=" +:+ value entityObj).
    now rewrite !append_assoc. }
  destruct ((isMD5 entityObj || isSHA1 entityObj || isSHA256 entityObj)
            && lookupHashes options).
  { intros [= <- <-]. constructor; [|constructor; [|constructor]].
    - exists ("indicators/?c-type=" +:+ Js.toUpperCase (hashType entityObj)
              +:+ "&c-lower=" +:+ Js.toLowerCase (value entityObj)).
      now rewrite !append_assoc.
    - exists ("samples/?only=filename,campaign,description,modified,source&"
              +:+ "c-" +:+ Js.toLowerCase (hashType entityObj) +:+ "=" +:+
              Js.toLowerCase (value entityObj)).
      now rewrite !append_assoc. }
  destruct (isDomain entityObj && lookupDomains options).
  { intros [= <- <-]. constructor; [|constructor].
    exists ("domains/?c-domain=" +:+ value entityObj).
    now rewrite !append_assoc. }
  discriminate.
Qed.

Lemma each_from_authenticated (options : Options) (host u k : string)
    (entities : list Entity) :
  _getFormattedHostname options = Ret host ->
  username options = JStr u ->
  apiKey options = JStr k ->
  forall st,
    Forall (authenticated_uri host u k) (requests st) ->
    Forall (authenticated_uri host u k)
           (requests (each_from options entities st)).
Proof.
  intros Hhost Hu Hk.
  induction entities as [|e entities IH]; intros st H; [exact H|].
  cbn [each_from]. rewrite iteratee_launch.
  destruct (launch options e) as [[[t uris]|]|msg] eqn:Hl.
  - apply IH. unfold issue; cbn [requests]. apply Forall_app. split; [exact H|].
    eapply launch_authenticated; eauto.
  - apply IH. now rewrite requests_next.
  - exact H.
Qed.

(** X15: Every GET of a batch goes to a path under [/api/v1/] of the configured
    hostname, its trailing slash removed, and ends with the username and the
    API key as query parameters, as they were configured. *)
Theorem requests_are_authenticated (options : Options)
    (entities : list Entity) (trace : list Event) (h u k : string) :
  hostname options = JStr h ->
  username options = JStr u ->
  apiKey options = JStr k ->
  exists host,
    _getFormattedHostname options = Ret host /\
    Forall (authenticated_uri host u k)
           (requests (run options (doLookup entities options) trace)).
Proof.
  intros Hh Hu Hk.
  destruct (formatted_hostname_string options h Hh) as (host & Hhost).
  exists host. split; [exact Hhost|].
  destruct (run_keeps_requests options trace (doLookup entities options))
    as (-> & _).
  unfold doLookup. destruct (_validateOptions options); [constructor|].
  unfold async_each. apply (each_from_authenticated options host u k);
    try assumption.
  destruct (length entities =? 0)%nat; [|constructor].
  unfold finish; cbn [callback requests]. constructor.
Qed.

Lemma requests_are_authenticated_witness :
  exists host,
    _getFormattedHostname example_options = Ret host /\
    Forall (authenticated_uri host "analyst" "k3y")
           (requests (run example_options
                          (doLookup [example_ip; example_hash] example_options)
                          example_two_misses)).
Proof.
  apply (requests_are_authenticated example_options [example_ip; example_hash]
           example_two_misses "https://crits.example.com/" "analyst" "k3y");
    reflexivity.
Defined.

(** ** A reply without a response *)

(** X16: Unless the transport error is an object (or carries a string code), the
    classification reads the status of the response: a reply that has
    neither such an error nor a response makes the callback of its request
    throw.  For a lookup that awaits the reply this ends the process, with
    nothing delivered or added. *)
Theorem reply_without_response_crashes (options : Options) (st : State)
    (ev : Event) :
  crashed st = None ->
  awaiting st ev = true ->
  transport_error (reply_err (ev_reply ev)) = None ->
  reply_response (ev_reply ev) = None ->
  (exists msg,
      _getErrorMessage (reply_err (ev_reply ev)) None
                       (reply_body (ev_reply ev)) = Throw msg) /\
  crashed (step options st ev) <> None /\
  callback (step options st ev) = callback st /\
  lookupResults (step options st ev) = lookupResults st.
Proof.
  intros Hc Haw Herr Hresp.
  assert (Hthrow : exists msg,
             _getErrorMessage (reply_err (ev_reply ev))
                              (reply_response (ev_reply ev))
                              (reply_body (ev_reply ev)) = Throw msg).
  { rewrite getErrorMessage_transport, Herr, Hresp. cbn. eauto. }
  destruct Hthrow as (msg & Hmsg).
  split; [rewrite <- Hresp; eauto|].
  unfold awaiting in Haw. unfold step. rewrite Hc.
  destruct (tasks st !! ev_task ev) as [[kind e [|]|e hi hs]|];
    try discriminate Haw.
  - destruct (ev_which ev); try discriminate Haw.
    destruct kind; unfold _lookupIP, _lookupDomains, single_lookup;
      rewrite Hmsg; cbn [mbind Outcome_bind crash set_tasks crashed callback
                           lookupResults];
      repeat split; discriminate.
  - destruct (ev_which ev), hi, hs; try discriminate Haw;
      unfold _processHashResults; rewrite Hmsg;
      cbn [mbind Outcome_bind crash crashed callback lookupResults];
      repeat split; discriminate.
Qed.

Lemma reply_without_response_crashes_witness :
  crashed (step example_options (doLookup [example_hash] example_options)
                {| ev_task := 0; ev_which := SampleSearch;
                   ev_reply := example_no_response |}) <> None.
Proof.
  refine (proj1 (proj2 (reply_without_response_crashes example_options
                   (doLookup [example_hash] example_options)
                   {| ev_task := 0; ev_which := SampleSearch;
                      ev_reply := example_no_response |} _ _ _ _)));
    reflexivity.
Defined.

(** ** Sample records without an md5 *)

(** X17: The detail URL of a sample is built from its md5 and its patch URI
    from its _id.  For a sample record that has neither (the samples search
    asks for filename, campaign, description, modified and source only),
    both are built with the text "undefined", and the entry's bucket list
    is undefined. *)
Theorem sample_entry_without_md5 (options : Options) (host : string)
    (props : list (string * JsVal)) :
  _getFormattedHostname options = Ret host ->
  Js.assoc "md5" props = JUndefined ->
  Js.assoc "_id" props = JUndefined ->
  Js.assoc "bucket_list" props = JUndefined ->
  exists entry,
    hash_sample_entry options (JObj props) = Ret entry /\
    prop entry "critsLookupUrl" =
      JStr (host +:+ "/samples/details/undefined/") /\
    prop entry "patchDescriptionUri" =
      JStr (host +:+ "/api/v1/indicator/undefined" +:+
            _getUriAuthQueryParam options) /\
    prop entry "bucketList" = JUndefined /\
    prop entry "filename" = Js.assoc "filename" props /\
    prop entry "source" = Js.assoc "source" props.
Proof.
  intros Hhost Hmd5 Hid Hbl.
  unfold hash_sample_entry, _getCritsSampleUrl, details_url,
    _getPatchDescriptionUri.
  rewrite Hhost. cbn [Js.get mbind Outcome_bind]. rewrite Hmd5, Hid, Hbl.
  eexists. split; [reflexivity|].
  cbn [prop Js.assoc String.eqb Ascii.eqb Bool.eqb].
  unfold Js.concat. cbn [Js.to_string].
  rewrite !append_assoc. repeat split.
Qed.

Lemma sample_entry_without_md5_witness :
  exists entry,
    hash_sample_entry example_options example_sample = Ret entry /\
    prop entry "critsLookupUrl" =
      JStr "https://crits.example.com/samples/details/undefined/".
Proof.
  destruct (sample_entry_without_md5 example_options
              "https://crits.example.com"
              [("filename", JStr "a.exe");
               ("campaign", JArr []);
               ("description", JStr "");
               ("modified", JStr "2017-03-01 10:00:00");
               ("source", JArr [JObj [("name", JStr "osint")]])])
    as (entry & He & Hurl & _); try reflexivity.
  exists entry. split; [exact He|exact Hurl].
Defined.

(** ** When a hash lookup throws *)

Lemma forEach_add_returns (marker : string) (v : JsVal) (s r : list JsVal) :
  forEach_if_array
    (fun us x => t ← name_tag marker x; Ret (Js.Set_add us t)) v s = Ret r ->
  Forall not_nullish (elements v).
Proof.
  destruct v as [| | | | |elems|]; cbn [forEach_if_array elements];
    try (intros _; constructor).
  revert s. induction elems as [|x elems IH]; intros s H; [constructor|].
  cbn [Js.forEach] in H.
  destruct (name_tag marker x) as [t|] eqn:Hx; [|discriminate H].
  cbn [mbind Outcome_bind] in H.
  constructor; [eapply name_tag_returns; eauto|eapply IH; eauto].
Qed.

Lemma collect_tags_returns (sets sets' : TagSets) (item : JsVal) :
  collect_tags sets item = Ret sets' -> record_ok item.
Proof.
  unfold collect_tags. intros H.
  destruct (Js.get item "source") as [source|] eqn:Hs; [|discriminate H].
  pose proof (get_returns _ _ _ Hs) as Hitem.
  rewrite !get_prop in * by exact Hitem. injection Hs as <-.
  cbn [mbind Outcome_bind] in H.
  destruct (forEach_if_array _ (prop item "source") _) as [us|] eqn:H1;
    [|discriminate H].
  cbn [mbind Outcome_bind] in H.
  destruct (forEach_if_array _ (prop item "campaign") _) as [uc|] eqn:H2;
    [|discriminate H].
  split; [exact Hitem|]. split.
  - eapply forEach_add_returns; eauto.
  - eapply forEach_add_returns; eauto.
Qed.

Lemma forEach_collect_returns (items : list JsVal) :
  forall sets sets',
    Js.forEach collect_tags items sets = Ret sets' -> Forall record_ok items.
Proof.
  induction items as [|item items IH]; intros sets sets' H; [constructor|].
  cbn [Js.forEach] in H.
  destruct (collect_tags sets item) as [s1|] eqn:H1; [|discriminate H].
  cbn [mbind Outcome_bind] in H.
  constructor; [eapply collect_tags_returns; eauto|eapply IH; eauto].
Qed.

Lemma createHashTags_returns (details : HashDetails) (tags : list JsVal) :
  _createHashTags details = Ret tags ->
  Forall record_ok (hashSamples details) /\
  Forall record_ok (hashIndicators details).
Proof.
  unfold _createHashTags. cbn zeta. intros H.
  destruct (Js.forEach collect_tags (hashSamples details) _) as [s1|] eqn:H1;
    [|discriminate H].
  cbn [mbind Outcome_bind] in H.
  destruct (Js.forEach collect_tags (hashIndicators details) s1)
    as [s2|] eqn:H2; [|discriminate H].
  split; eapply forEach_collect_returns; eauto.
Qed.

Lemma entries_ok_records (objs entries : list JsVal) :
  Forall2 entry_of objs entries ->
  Forall not_nullish objs ->
  Forall record_ok entries ->
  Forall record_ok objs.
Proof.
  induction 1 as [|object entry objs entries He _ IH]; intros Hn Hok;
    [constructor|].
  apply Forall_cons in Hn as [Hobj Hn].
  apply Forall_cons in Hok as [(_ & Hsrc & Hcamp) Hok].
  destruct He as (_ & Es & Ec & _).
  constructor; [|now apply IH].
  unfold record_ok. rewrite <- Es, <- Ec. auto.
Qed.

Lemma sample_entries_return (options : Options) (h : string)
    (objs : list JsVal) :
  hostname options = JStr h ->
  forall acc r,
    Js.forEach (fun acc critsObject =>
                  entry ← hash_sample_entry options critsObject;
                  Ret (acc ++ [entry])) objs acc = Ret r ->
    Forall not_nullish objs.
Proof.
  intros Hh acc r H. apply forEach_push_returns in H.
  eapply Forall_impl; [exact H|].
  intros x (t & Ht). unfold hash_sample_entry in Ht.
  destruct (Js.get x "filename") eqn:Hf; [|discriminate Ht].
  eapply get_returns; eauto.
Qed.

Lemma indicator_entries_return (options : Options) (h : string)
    (objs : list JsVal) :
  hostname options = JStr h ->
  forall acc r,
    Js.forEach (fun acc critsObject =>
                  entry ← hash_indicator_entry options critsObject;
                  Ret (acc ++ [entry])) objs acc = Ret r ->
    Forall not_nullish objs.
Proof.
  intros Hh acc r H. apply forEach_push_returns in H.
  eapply Forall_impl; [exact H|].
  intros x (t & Ht).
  unfold hash_indicator_entry, _getCritsHashUrl, details_url in Ht.
  destruct (_getFormattedHostname options); [|discriminate Ht].
  cbn [mbind Outcome_bind] in Ht.
  destruct (Js.get x "_id") eqn:Hf; [|discriminate Ht].
  eapply get_returns; eauto.
Qed.

Lemma lookupHash_returns (entityObj : Entity) (options : Options)
    (h : string) (hi hs : option (list JsVal))
    (results : list LookupResult) :
  hostname options = JStr h ->
  _lookupHash entityObj options hi hs = Ret results ->
  exists indicators samples,
    hi = Some indicators /\ hs = Some samples /\
    Forall record_ok indicators /\ Forall record_ok samples.
Proof.
  intros Hh H.
  destruct hs as [samples|]; [|discriminate H].
  unfold _lookupHash in H. cbn [the_array mbind Outcome_bind] in H.
  destruct (Js.forEach _ samples []) as [es|] eqn:Hes; [|discriminate H].
  cbn [mbind Outcome_bind] in H.
  destruct hi as [indicators|]; [|discriminate H].
  cbn [the_array mbind Outcome_bind] in H.
  destruct (Js.forEach _ indicators []) as [ei|] eqn:Hei; [|discriminate H].
  cbn [mbind Outcome_bind] in H.
  exists indicators, samples. split; [reflexivity|]. split; [reflexivity|].
  pose proof (sample_entries_return options h samples Hh _ _ Hes) as Hns.
  pose proof (indicator_entries_return options h indicators Hh _ _ Hei)
    as Hni.
  destruct ((length indicators =? 0)%nat && (length samples =? 0)%nat)
    eqn:Hempty.
  - apply andb_true_iff in Hempty as [Ei Es].
    apply Nat.eqb_eq in Ei, Es.
    destruct indicators, samples; try discriminate. split; constructor.
  - destruct (_createHashTags _) as [tags|] eqn:Htags; [|discriminate H].
    apply createHashTags_returns in Htags as [Hoks Hoki].
    cbn [hashSamples hashIndicators] in *.
    destruct (forEach_push_rel (hash_sample_entry options) entry_of samples)
      with (acc := @nil JsVal) as (es' & Hes' & HFs).
    { eapply Forall_impl; [exact Hns|]. intros object Hobj.
      eapply hash_sample_entry_of; eassumption. }
    destruct (forEach_push_rel (hash_indicator_entry options) entry_of
                indicators)
      with (acc := @nil JsVal) as (ei' & Hei' & HFi).
    { eapply Forall_impl; [exact Hni|]. intros object Hobj.
      eapply hash_indicator_entry_of; eassumption. }
    rewrite Hes in Hes'. rewrite Hei in Hei'.
    injection Hes' as ->. injection Hei' as ->.
    split; eapply entries_ok_records; eauto.
Qed.

(** X18: With a string hostname, the final step of a hash lookup throws
    when one of the two searches passed on an undefined or null [objects]
    instead of a records array, and when a record of either search cannot
    be read: it is undefined or null, or has an undefined or null source
    or campaign entry. *)
Theorem lookupHash_throws_on_unreadable (entityObj : Entity)
    (options : Options) (h : string) (hi hs : option (list JsVal)) :
  hostname options = JStr h ->
  (hi = None \/ hs = None ->
   exists msg, _lookupHash entityObj options hi hs = Throw msg) /\
  (forall indicators samples,
      hi = Some indicators -> hs = Some samples ->
      ~ (Forall record_ok indicators /\ Forall record_ok samples) ->
      exists msg, _lookupHash entityObj options hi hs = Throw msg).
Proof.
  intros Hh. split.
  - intros [-> | ->].
    + unfold _lookupHash. destruct (the_array hs); cbn; [|eauto].
      destruct (Js.forEach _ _ _); cbn; eauto.
    + unfold _lookupHash. cbn. eauto.
  - intros indicators samples -> -> Hbad.
    destruct (_lookupHash entityObj options (Some indicators) (Some samples))
      as [results|msg] eqn:H; [|eauto].
    destruct Hbad.
    destruct (lookupHash_returns _ _ _ _ _ _ Hh H)
      as (i' & s' & [= <-] & [= <-] & Hi & Hs).
    auto.
Qed.

Lemma lookupHash_throws_on_unreadable_witness :
  (exists msg,
      _lookupHash example_hash example_options None (Some [example_record]) =
      Throw msg) /\
  (exists msg,
      _lookupHash example_hash example_options
                  (Some [example_record]) (Some [JNull]) = Throw msg).
Proof.
  split.
  - apply (proj1 (lookupHash_throws_on_unreadable example_hash
                    example_options "https://crits.example.com/" None
                    (Some [example_record]) eq_refl)).
    now left.
  - apply (proj2 (lookupHash_throws_on_unreadable example_hash
                    example_options "https://crits.example.com/"
                    (Some [example_record]) (Some [JNull]) eq_refl)
                 [example_record] [JNull] eq_refl eq_refl).
    intros (_ & Hs). apply Forall_cons in Hs as [(Hnull & _) _].
    discriminate Hnull.
Defined.
